(** * HausAufgaben: the task store codec and the reference data resolver

    A shallow embedding of [lib/Tasks.ts] (class [Tasks]) and
    [lib/StammDaten.ts] (class [StammdatenRepository]), and the properties of
    the specification that are settled on it.

    JavaScript strings are sequences of UTF-16 code units; they are modelled
    as [list N], one [N] per code unit, so that [length], [slice] and the
    ordering of tokens by length mean what they mean in the source. *)

From Stdlib Require Import ZArith NArith List Bool Lia DecimalZ.
From stdpp Require Import base option list strings gmap sorting.

Local Open Scope N_scope.

Abbreviation jsstring := (list N).

(** Code units of an ASCII literal. *)
Definition str (s : string) : jsstring :=
  map Ascii.N_of_ascii (String.list_ascii_of_string s).

(** ** The string primitives of the runtime that the code relies on *)

Module JS.

Definition SP : N := 32.
Definition TAB : N := 9.
Definition LF : N := 10.
Definition CR : N := 13.
Definition BACKSLASH : N := 92.
Definition COLON : N := 58.
Definition SEMICOLON : N := 59.
Definition COMMA : N := 44.
Definition HYPHEN : N := 45.

(** [WhiteSpace] and [LineTerminator] of ECMAScript: what [\s] matches and
    what [trim] strips. *)
Definition isWhiteSpace (c : N) : bool :=
  ((9 <=? c) && (c <=? 13)) || (c =? 32) || (c =? 160) || (c =? 0x1680)
  || ((0x2000 <=? c) && (c <=? 0x200A)) || (c =? 0x2028) || (c =? 0x2029)
  || (c =? 0x202F) || (c =? 0x205F) || (c =? 0x3000) || (c =? 0xFEFF).

(** What [.] does not match in a regular expression without the [s] flag. *)
Definition isLineTerminator (c : N) : bool :=
  (c =? 10) || (c =? 13) || (c =? 0x2028) || (c =? 0x2029).

(** [\d] *)
Definition isDigit (c : N) : bool := (48 <=? c) && (c <=? 57).

Fixpoint streq (a b : jsstring) : bool :=
  match a, b with
  | [], [] => true
  | x :: a', y :: b' => (x =? y) && streq a' b'
  | _, _ => false
  end.

Fixpoint dropStartWhile (p : N -> bool) (s : jsstring) : jsstring :=
  match s with
  | [] => []
  | c :: s' => if p c then dropStartWhile p s' else s
  end.

Fixpoint takeStartWhile (p : N -> bool) (s : jsstring) : jsstring :=
  match s with
  | [] => []
  | c :: s' => if p c then c :: takeStartWhile p s' else []
  end.

Fixpoint dropEndWhile (p : N -> bool) (s : jsstring) : jsstring :=
  match s with
  | [] => []
  | c :: s' =>
      match dropEndWhile p s' with
      | [] => if p c then [] else [c]
      | r => c :: r
      end
  end.

Definition takeEndWhile (p : N -> bool) (s : jsstring) : jsstring :=
  drop (length (dropEndWhile p s)) s.

Definition trimStart (s : jsstring) : jsstring := dropStartWhile isWhiteSpace s.
Definition trimEnd (s : jsstring) : jsstring := dropEndWhile isWhiteSpace s.
Definition trim (s : jsstring) : jsstring := trimEnd (trimStart s).

(** [s.startsWith(p)] *)
Fixpoint startsWith (s p : jsstring) {struct p} : bool :=
  match p, s with
  | [], _ => true
  | a :: p', b :: s' => (a =? b) && startsWith s' p'
  | _ :: _, [] => false
  end.

(** [s.indexOf(needle)], with -1 when there is no occurrence. *)
Fixpoint indexOfFrom (i : Z) (s needle : jsstring) : Z :=
  if startsWith s needle then i
  else match s with
       | [] => (-1)%Z
       | _ :: s' => indexOfFrom (i + 1)%Z s' needle
       end.

Definition indexOf (s needle : jsstring) : Z := indexOfFrom 0%Z s needle.

Definition includes (s needle : jsstring) : bool := (0 <=? indexOf s needle)%Z.

(** [s.slice(a)] and [s.slice(a, b)] for [0 <= a <= b]. *)
Definition sliceFrom (s : jsstring) (a : nat) : jsstring := drop a s.
Definition slice (s : jsstring) (a b : nat) : jsstring := take (b - a) (drop a s).

(** A matcher tells, for the text that starts at the current position, how
    many code units a match takes there. *)
Definition matcher := jsstring -> option nat.

Definition literal (pat : jsstring) : matcher :=
  fun s => if startsWith s pat then Some (length pat) else None.

(** [s.split(sep)] for a separator that never matches the empty string:
    the text is scanned from the left, a match closes the current piece and
    the scan resumes behind it.  [skip] counts the code units of a match
    that are still to be stepped over. *)
Fixpoint splitAux (m : matcher) (skip : nat) (cur s : jsstring) : list jsstring :=
  match s with
  | [] => [cur]
  | c :: s' =>
      match skip with
      | S k => splitAux m k cur s'
      | O =>
          match m s with
          | Some (S k) => cur :: splitAux m k [] s'
          | _ => splitAux m O (cur ++ [c]) s'
          end
      end
  end.

Definition splitBy (m : matcher) (s : jsstring) : list jsstring := splitAux m O [] s.

(** [s.split(sep)] with a string separator; the empty separator splits
    into code units. *)
Definition split (s sep : jsstring) : list jsstring :=
  match sep with
  | [] => map (fun c => [c]) s
  | _ => splitBy (literal sep) s
  end.

(** [parts.join(sep)] *)
Fixpoint join (sep : jsstring) (parts : list jsstring) : jsstring :=
  match parts with
  | [] => []
  | [p] => p
  | p :: rest => p ++ sep ++ join sep rest
  end.

(** [s.replace(re, rep)] for a global pattern that never matches the empty
    string. *)
Fixpoint replaceAux (m : matcher) (rep : jsstring) (skip : nat) (s : jsstring) : jsstring :=
  match s with
  | [] => []
  | c :: s' =>
      match skip with
      | S k => replaceAux m rep k s'
      | O =>
          match m s with
          | Some (S k) => rep ++ replaceAux m rep k s'
          | _ => c :: replaceAux m rep O s'
          end
      end
  end.

Definition replaceAll (m : matcher) (rep s : jsstring) : jsstring :=
  replaceAux m rep O s.

(** [s.replace(/\s+/g, " ")]: [inRun] tells that the previous code unit
    was white space, whose run has already been replaced. *)
Fixpoint collapseAux (inRun : bool) (s : jsstring) : jsstring :=
  match s with
  | [] => []
  | c :: s' =>
      if isWhiteSpace c
      then (if inRun then collapseAux true s' else SP :: collapseAux true s')
      else c :: collapseAux false s'
  end.

Definition collapseWhiteSpace (s : jsstring) : jsstring := collapseAux false s.

(** The matcher of [/\s*\n\s*/]: the greedy [\s*] runs over the whole
    white space run at the position and backtracks to its last line feed,
    behind which the second [\s*] takes the rest of the run; so the match
    is the whole run, and there is one exactly when the run has a line
    feed. *)
Definition paddedNewline : matcher :=
  fun s =>
    let run := takeStartWhile isWhiteSpace s in
    if existsb (N.eqb LF) run then Some (length run) else None.

(** Stable sort by decreasing length: [xs.sort((a, b) => key(b) - key(a))]. *)
Section SortByLength.
Context {A : Type} (key : A -> nat).

Fixpoint insertByLength (x : A) (l : list A) : list A :=
  match l with
  | [] => [x]
  | y :: l' =>
      if (key y <=? key x)%nat then x :: l else y :: insertByLength x l'
  end.

Definition sortByLengthDesc (l : list A) : list A :=
  foldr insertByLength [] l.
End SortByLength.

(** [lines.findIndex(p)], with -1 when no element satisfies [p]; the
    callback sees the element and its index. *)
Fixpoint findIndexFrom {A : Type} (i : Z) (p : A -> Z -> bool) (l : list A) : Z :=
  match l with
  | [] => (-1)%Z
  | x :: l' => if p x i then i else findIndexFrom (i + 1)%Z p l'
  end.

Definition findIndex {A : Type} (p : A -> Z -> bool) (l : list A) : Z :=
  findIndexFrom 0%Z p l.

(** [Number(digits)] for a string of decimal digits, and the decimal
    rendering of an integer in a template literal.  Integers are exact here;
    the source's numbers are doubles and agree with this up to 2^53. *)
Definition digitsToZ (ds : jsstring) : Z :=
  fold_left (fun acc d => (10 * acc + (Z.of_N d - 48))%Z) ds 0%Z.

Fixpoint uintToString (d : Decimal.uint) : jsstring :=
  match d with
  | Decimal.Nil => []
  | Decimal.D0 r => 48 :: uintToString r
  | Decimal.D1 r => 49 :: uintToString r
  | Decimal.D2 r => 50 :: uintToString r
  | Decimal.D3 r => 51 :: uintToString r
  | Decimal.D4 r => 52 :: uintToString r
  | Decimal.D5 r => 53 :: uintToString r
  | Decimal.D6 r => 54 :: uintToString r
  | Decimal.D7 r => 55 :: uintToString r
  | Decimal.D8 r => 56 :: uintToString r
  | Decimal.D9 r => 57 :: uintToString r
  end.

Definition numberToString (z : Z) : jsstring :=
  match Z.to_int z with
  | Decimal.Pos d => uintToString d
  | Decimal.Neg d => HYPHEN :: uintToString d
  end.





End JS.


(** ** What the code takes from the Unicode tables of the runtime

    [String.prototype.normalize("NFKC")], [toUpperCase] and [toLowerCase] are
    functions of the runtime, not of this repository.  They are taken as an
    interface; [asciiUnicode] is the instance that agrees with the runtime on
    ASCII text. *)

Class UnicodeOps := {
  nfkc : jsstring -> jsstring;
  toUpperCase : jsstring -> jsstring;
  toLowerCase : jsstring -> jsstring
}.

Definition asciiUpperUnit (c : N) : N :=
  if (97 <=? c) && (c <=? 122) then c - 32 else c.

Definition asciiLowerUnit (c : N) : N :=
  if (65 <=? c) && (c <=? 90) then c + 32 else c.

Definition asciiUnicode : UnicodeOps := {|
  nfkc := fun s => s;
  toUpperCase := map asciiUpperUnit;
  toLowerCase := map asciiLowerUnit
|}.

(** ** The task store: [lib/Tasks.ts] *)

Module Tasks.
Import JS.

Record StatusPaar := {
  sym_freigegeben : jsstring;
  sym_gesperrt : jsstring
}.

Record StatusSymbole := {
  nichtBegonnen : StatusPaar;
  erledigt : StatusPaar
}.

Record TaskModifierConfig := {
  descriptionTrennzeichen : jsstring;
  hinweisTrennzeichen : option jsstring;
  statusSymbole : StatusSymbole;
  summaryTrennzeichen : jsstring;
  summaryInhalt : list jsstring
}.

(** The [Modifier] object of the configuration file; an absent nested object
    is one whose fields are all absent. *)
Record ModifierRoot := {
  m_Trennzeichen : option jsstring;
  m_HinweisTrennzeichen : option jsstring;
  m_NichtBegonnenFreigegeben : option jsstring;
  m_NichtBegonnenGesperrt : option jsstring;
  m_ErledigtFreigegeben : option jsstring;
  m_ErledigtGesperrt : option jsstring;
  m_SummaryTrennzeichen : option jsstring;
  m_SummaryInhalt : option (list jsstring)
}.

(** U+2713 CHECK MARK, one code unit. *)
Definition CHECK : N := 0x2713.

Definition readModifierConfig (modifier : option ModifierRoot) : TaskModifierConfig :=
  let get {A} (f : ModifierRoot -> option A) (d : A) : A :=
    default d (modifier ≫= f) in
  {| descriptionTrennzeichen := get m_Trennzeichen [LF];
     hinweisTrennzeichen := Some (get m_HinweisTrennzeichen (str "##"));
     statusSymbole :=
       {| nichtBegonnen :=
            {| sym_freigegeben := get m_NichtBegonnenFreigegeben (str "*");
               sym_gesperrt := get m_NichtBegonnenGesperrt (str ".*") |};
          erledigt :=
            {| sym_freigegeben := get m_ErledigtFreigegeben [CHECK];
               sym_gesperrt := get m_ErledigtGesperrt (str "." ++ [CHECK]) |} |};
     summaryTrennzeichen := get m_SummaryTrennzeichen (str "//");
     summaryInhalt := get m_SummaryInhalt [] |}.

(** The configuration when the file sets nothing. *)
Definition defaultModifier : TaskModifierConfig :=
  Eval cbv in readModifierConfig None.

Record ParsedUnteraufgabe := {
  symbol : jsstring;
  status : bool;
  freigegeben : bool;
  titel : jsstring;
  hinweis : option jsstring;
  raw : jsstring
}.

Record ParsedSummary := {
  summary_raw : jsstring;
  teile : list jsstring;
  felder : gmap jsstring jsstring
}.

Record ParsedTask := {
  sourceFile : option jsstring;
  uid : option jsstring;
  created : option jsstring;
  dtStamp : option jsstring;
  due : option jsstring;
  start : option jsstring;
  task_status : option jsstring;
  summary : ParsedSummary;
  descriptionRaw : jsstring;
  unteraufgaben : list ParsedUnteraufgabe;
  properties : gmap jsstring jsstring
}.

Record UnteraufgabeUpdateInput := {
  u_titel : jsstring;
  u_status : bool;
  u_freigegeben : option bool;
  u_hinweis : option jsstring
}.

(** The [patch] argument of [updateUnteraufgabeInFile]. *)
Record Patch := {
  p_status : option bool;
  p_hinweis : option jsstring
}.

(** [Boolean(s)] for a string. *)
Definition nonEmpty (s : jsstring) : bool :=
  match s with [] => false | _ => true end.

(** [/[\u0000-\u001F\u007F]/] *)
Definition isControl (c : N) : bool := (c <=? 0x1F) || (c =? 0x7F).

Definition BEGIN_VTODO : jsstring := Eval cbv in str "BEGIN:VTODO".
Definition END_VTODO : jsstring := Eval cbv in str "END:VTODO".

(** [/\\n/gi] *)
Definition escapedNewline : matcher :=
  fun s =>
    match s with
    | 92 :: c :: _ => if (c =? 110) || (c =? 78) then Some 2%nat else None
    | _ => None
    end.

Definition unescapeIcsText (value : jsstring) : jsstring :=
  replaceAll (literal [BACKSLASH; BACKSLASH]) [BACKSLASH]
    (replaceAll (literal [BACKSLASH; SEMICOLON]) [SEMICOLON]
       (replaceAll (literal [BACKSLASH; COMMA]) [COMMA]
          (replaceAll escapedNewline [LF] value))).

Definition escapeIcsText (value : jsstring) : jsstring :=
  replaceAll (literal [SEMICOLON]) [BACKSLASH; SEMICOLON]
    (replaceAll (literal [COMMA]) [BACKSLASH; COMMA]
       (replaceAll (literal [LF]) [BACKSLASH; 110]
          (replaceAll (literal [BACKSLASH]) [BACKSLASH; BACKSLASH] value))).

(** [unfolded[unfolded.length - 1] += rest] *)
Fixpoint appendToLast (unfolded : list jsstring) (rest : jsstring) : list jsstring :=
  match unfolded with
  | [] => []
  | [l] => [l ++ rest]
  | l :: more => l :: appendToLast more rest
  end.

(** One turn of the loop of [unfoldIcsLines]. *)
Definition unfoldStep (unfolded : list jsstring) (line : jsstring) : list jsstring :=
  if (startsWith line [SP] || startsWith line [TAB]) && (0 <? length unfolded)%nat
  then appendToLast unfolded (sliceFrom line 1)
  else unfolded ++ [line].

Definition unfoldIcsLines (content : jsstring) : list jsstring :=
  let lines := split (replaceAll (literal [CR; LF]) [LF] content) [LF] in
  fold_left unfoldStep lines [].

Definition getVtodoBounds (lines : list jsstring) : option (Z * Z) :=
  let begin := findIndex (fun line _ => streq line BEGIN_VTODO) lines in
  if (begin <? 0)%Z then None
  else
    let end_ :=
      findIndex (fun line index => (begin <? index)%Z && streq line END_VTODO) lines in
    if (end_ <? 0)%Z then None else Some (begin, end_).

(** [left.split(";", 1)[0]] *)
Definition firstPiece (left : jsstring) : jsstring :=
  hd [] (take 1 (split left [SEMICOLON])).

Section Codec.
Context `{UnicodeOps}.

(** The callback of [findIndex] in [upsertProperty]. *)
Definition lineHasKey (keyUpper line : jsstring) : bool :=
  let separatorIndex := indexOf line [COLON] in
  if (separatorIndex <=? 0)%Z then false
  else
    let left := slice line 0 (Z.to_nat separatorIndex) in
    let lineKey := toUpperCase (firstPiece left) in
    streq lineKey keyUpper.

(** [lines[index] = newLine] or [lines.push(newLine)]; the mutated array is
    the result. *)
Definition upsertProperty (lines : list jsstring) (key value : jsstring) : list jsstring :=
  let keyUpper := toUpperCase key in
  let index := findIndex (fun line _ => lineHasKey keyUpper line) lines in
  let newLine := keyUpper ++ [COLON] ++ value in
  if (0 <=? index)%Z then <[Z.to_nat index := newLine]> lines
  else lines ++ [newLine].

(** The first loop of [parseIcsProperties]: the lines pushed to [inVtodo]. *)
Fixpoint collectVtodo (insideVtodo : bool) (lines : list jsstring) : list jsstring :=
  match lines with
  | [] => []
  | line :: more =>
      if streq line BEGIN_VTODO then collectVtodo true more
      else if streq line END_VTODO then []
      else if insideVtodo then line :: collectVtodo insideVtodo more
      else collectVtodo insideVtodo more
  end.

(** One turn of the second loop of [parseIcsProperties].  The keys are
    upper case, so none of them is a name that an object inherits. *)
Definition setProperty (props : gmap jsstring jsstring) (line : jsstring)
  : gmap jsstring jsstring :=
  let separatorIndex := indexOf line [COLON] in
  if (separatorIndex <=? 0)%Z then props
  else
    let left := slice line 0 (Z.to_nat separatorIndex) in
    let value := sliceFrom line (Z.to_nat separatorIndex + 1) in
    let key := toUpperCase (firstPiece left) in
    <[key := unescapeIcsText value]> props.

Definition propertiesOfLines (inVtodo : list jsstring) : gmap jsstring jsstring :=
  fold_left setProperty inVtodo ∅.

Definition parseIcsProperties (content : jsstring) : gmap jsstring jsstring :=
  propertiesOfLines (collectVtodo false (unfoldIcsLines content)).

(** Everything below reads [this.modifier], which loads the configuration
    file again when its modification time has changed; [cfg] is the
    configuration that the call finds. *)
Variable cfg : TaskModifierConfig.

Definition getHinweisSeparator : option jsstring :=
  match hinweisTrennzeichen cfg with
  | None => None
  | Some t =>
      let raw := trim t in
      if nonEmpty raw then Some ([SP] ++ raw ++ [SP]) else None
  end.

(** The tokens before [filter] and [sort]; [None] is [undefined]. *)
Definition steuerzeichenKandidaten : list (option jsstring) :=
  [ Some (sym_freigegeben (nichtBegonnen (statusSymbole cfg)));
    Some (sym_gesperrt (nichtBegonnen (statusSymbole cfg)));
    Some (sym_freigegeben (erledigt (statusSymbole cfg)));
    Some (sym_gesperrt (erledigt (statusSymbole cfg)));
    trim <$> hinweisTrennzeichen cfg;
    Some (descriptionTrennzeichen cfg) ].

Definition getSteuerzeichenTokens : list jsstring :=
  sortByLengthDesc (@length N)
    (List.filter nonEmpty (omap id steuerzeichenKandidaten)).

(** [normalized.split(token).join(" ")] *)
Definition removeToken (normalized token : jsstring) : jsstring :=
  join [SP] (split normalized token).

Definition normalizeHinweis (hinweis : jsstring) : jsstring :=
  let normalized0 := map (fun c => if isControl c then SP else c) (nfkc hinweis) in
  let normalized1 := fold_left removeToken getSteuerzeichenTokens normalized0 in
  let normalized2 := trim (collapseWhiteSpace normalized1) in
  if (20 <? length normalized2)%nat
  then trimEnd (slice normalized2 0 20)
  else normalized2.

Definition toSymbol (status freigegeben : bool) : jsstring :=
  if negb status && negb freigegeben then sym_gesperrt (nichtBegonnen (statusSymbole cfg))
  else if status && negb freigegeben then sym_gesperrt (erledigt (statusSymbole cfg))
  else if negb status then sym_freigegeben (nichtBegonnen (statusSymbole cfg))
  else sym_freigegeben (erledigt (statusSymbole cfg)).

Definition buildUnteraufgabeText (item : UnteraufgabeUpdateInput) : jsstring :=
  let titel := trim (u_titel item) in
  let hinweis := trim (default [] (u_hinweis item)) in
  match getHinweisSeparator with
  | Some separator =>
      if nonEmpty hinweis then titel ++ separator ++ hinweis else titel
  | None => titel
  end.

Definition buildUnteraufgabeLine (item : UnteraufgabeUpdateInput) : jsstring :=
  let inhalt := buildUnteraufgabeText item in
  trim (toSymbol (u_status item) (default true (u_freigegeben item)) ++ [SP] ++ inhalt).

Definition buildDescriptionValue (unteraufgaben : list UnteraufgabeUpdateInput) : jsstring :=
  join (descriptionTrennzeichen cfg) (map buildUnteraufgabeLine unteraufgaben).

Record Candidate := {
  c_symbol : jsstring;
  c_status : bool;
  c_freigegeben : bool
}.

Record StatusPrefix := {
  sp_symbol : jsstring;
  sp_status : bool;
  sp_freigegeben : bool;
  sp_inhalt : jsstring
}.

Definition candidates : list Candidate :=
  sortByLengthDesc (fun c => length (c_symbol c))
    [ {| c_symbol := sym_gesperrt (nichtBegonnen (statusSymbole cfg));
         c_status := false; c_freigegeben := false |};
      {| c_symbol := sym_gesperrt (erledigt (statusSymbole cfg));
         c_status := true; c_freigegeben := false |};
      {| c_symbol := sym_freigegeben (nichtBegonnen (statusSymbole cfg));
         c_status := false; c_freigegeben := true |};
      {| c_symbol := sym_freigegeben (erledigt (statusSymbole cfg));
         c_status := true; c_freigegeben := true |} ].

Fixpoint firstCandidate (rawPart : jsstring) (cs : list Candidate) : StatusPrefix :=
  match cs with
  | [] =>
      {| sp_symbol := []; sp_status := false; sp_freigegeben := true;
         sp_inhalt := trim rawPart |}
  | candidate :: more =>
      if startsWith rawPart (c_symbol candidate)
      then {| sp_symbol := c_symbol candidate;
              sp_status := c_status candidate;
              sp_freigegeben := c_freigegeben candidate;
              sp_inhalt := trim (sliceFrom rawPart (length (c_symbol candidate))) |}
      else firstCandidate rawPart more
  end.

Definition parseStatusPrefix (rawPart : jsstring) : StatusPrefix :=
  firstCandidate rawPart candidates.

Definition splitTitelUndHinweis (text : jsstring) : jsstring * option jsstring :=
  match getHinweisSeparator with
  | None => (trim text, None)
  | Some separator =>
      let separatorIndex := indexOf text separator in
      if (separatorIndex <? 0)%Z then (trim text, None)
      else
        let titel := trim (slice text 0 (Z.to_nat separatorIndex)) in
        let hinweis :=
          normalizeHinweis (sliceFrom text (Z.to_nat separatorIndex + length separator)) in
        (titel, if nonEmpty hinweis then Some hinweis else None)
  end.

Definition parseSegment (rawPart : jsstring) : ParsedUnteraufgabe :=
  let parsedPrefix := parseStatusPrefix rawPart in
  let splitText := splitTitelUndHinweis (sp_inhalt parsedPrefix) in
  {| symbol := sp_symbol parsedPrefix;
     status := sp_status parsedPrefix;
     freigegeben := sp_freigegeben parsedPrefix;
     titel := fst splitText;
     hinweis := snd splitText;
     raw := rawPart |}.

(** [text.split(newLineSeparator)]: on white space padded line feeds when the
    configured separator has a line feed, on the literal separator (as a
    regular expression, escaped) otherwise. *)
Definition splitDescription (text : jsstring) : list jsstring :=
  if includes (descriptionTrennzeichen cfg) [LF]
  then splitBy paddedNewline text
  else split text (descriptionTrennzeichen cfg).

Definition parseUnteraufgaben (descriptionRaw : jsstring) : list ParsedUnteraufgabe :=
  let text :=
    trim (replaceAll (literal [CR; LF]) [LF]
            (replaceAll (literal [BACKSLASH; 110]) [LF] descriptionRaw)) in
  if nonEmpty text
  then map parseSegment (List.filter nonEmpty (map trim (splitDescription text)))
  else [].

(** [acc[key] = teile[index] ?? ""] over [summaryInhalt]. *)
Fixpoint felderFrom (index : nat) (teile keys : list jsstring)
    (acc : gmap jsstring jsstring) : gmap jsstring jsstring :=
  match keys with
  | [] => acc
  | key :: more =>
      felderFrom (S index) teile more (<[key := default [] (teile !! index)]> acc)
  end.

Definition parseSummary (summaryRaw : jsstring) : ParsedSummary :=
  let teile :=
    List.filter nonEmpty (map trim (split summaryRaw (summaryTrennzeichen cfg))) in
  {| summary_raw := summaryRaw;
     teile := teile;
     felder := felderFrom 0 teile (summaryInhalt cfg) ∅ |}.

Definition parseTaskFromIcsContent (content : jsstring) (sourceFile : option jsstring)
  : ParsedTask :=
  let props := parseIcsProperties content in
  let summaryRaw := default [] (props !! str "SUMMARY") in
  let descriptionRaw := default [] (props !! str "DESCRIPTION") in
  {| sourceFile := sourceFile;
     uid := props !! str "UID";
     created := props !! str "CREATED";
     dtStamp := props !! str "DTSTAMP";
     due := props !! str "DUE";
     start := props !! str "DTSTART";
     task_status := props !! str "STATUS";
     summary := parseSummary summaryRaw;
     descriptionRaw := descriptionRaw;
     unteraufgaben := parseUnteraufgaben descriptionRaw;
     properties := props |}.

End Codec.

(** *** The file system and the operations that read and write it

    A world holds the content of each file and the log of the writes made so
    far, latest first.  An operation takes a world and gives either an error
    or a value, and the world it leaves.  Reading a file that is not there
    fails; writing is taken to succeed. *)

Record World := {
  files : gmap jsstring jsstring;
  writes : list (jsstring * jsstring)
}.

Inductive Error :=
| FileNotFound (path : jsstring)
| IndexOutOfRange (index : Z)
| NoVtodoComponent
| UndefinedItem.

Definition IO (A : Type) : Type := World -> (Error + A) * World.

Definition ret {A} (a : A) : IO A := fun w => (inr a, w).

Definition throw {A} (e : Error) : IO A := fun w => (inl e, w).

Definition bind {A B} (m : IO A) (k : A -> IO B) : IO B :=
  fun w =>
    match m w with
    | (inl e, w') => (inl e, w')
    | (inr a, w') => k a w'
    end.

Notation "'await' x <- m ; k" := (bind m (fun x => k))
  (at level 10, x name, m at level 100, k at level 200).

Definition readFile (path : jsstring) : IO jsstring :=
  fun w =>
    match files w !! path with
    | Some content => (inr content, w)
    | None => (inl (FileNotFound path), w)
    end.

Definition writeFile (path content : jsstring) : IO unit :=
  fun w =>
    (inr tt, {| files := <[path := content]> (files w);
                writes := (path, content) :: writes w |}).


(** The UTC fields of a [Date]. *)
Record UtcDate := {
  utcFullYear : Z;
  utcMonth : Z;
  utcDate : Z;
  utcHours : Z;
  utcMinutes : Z;
  utcSeconds : Z
}.

(** [String(value).padStart(2, "0")] *)
Definition pad (value : Z) : jsstring :=
  let digits := numberToString value in
  repeat 48 (2 - length digits) ++ digits.

Definition toUtcTimestamp (date : UtcDate) : jsstring :=
  numberToString (utcFullYear date) ++ pad (utcMonth date + 1) ++ pad (utcDate date)
    ++ str "T" ++ pad (utcHours date) ++ pad (utcMinutes date) ++ pad (utcSeconds date)
    ++ str "Z".

Definition CRLF : jsstring := [CR; LF].



Section Store.
Context `{UnicodeOps}.
Variable cfg : TaskModifierConfig.

Definition readTaskFromFile (filePath : jsstring) : IO ParsedTask :=
  await content <- readFile filePath;
  ret (parseTaskFromIcsContent cfg content (Some filePath)).

(** [now] is the value of [new Date()] at the call. *)
Definition writeUnteraufgabenToFile (now : UtcDate) (filePath : jsstring)
    (unteraufgaben : list UnteraufgabeUpdateInput) : IO ParsedTask :=
  await content <- readFile filePath;
  let newline := if includes content CRLF then CRLF else [LF] in
  let unfoldedLines := unfoldIcsLines content in
  match getVtodoBounds unfoldedLines with
  | None => throw NoVtodoComponent
  | Some (begin, end_) =>
      let nowUtc := toUtcTimestamp now in
      let vtodoLines0 :=
        take (Z.to_nat end_ - Z.to_nat (begin + 1)) (drop (Z.to_nat (begin + 1)) unfoldedLines) in
      let descriptionValue := buildDescriptionValue cfg unteraufgaben in
      let vtodoLines1 :=
        upsertProperty vtodoLines0 (str "DESCRIPTION") (escapeIcsText descriptionValue) in
      let vtodoLines2 := upsertProperty vtodoLines1 (str "DTSTAMP") nowUtc in
      let vtodoLines3 := upsertProperty vtodoLines2 (str "LAST-MODIFIED") nowUtc in
      let updatedLines :=
        take (Z.to_nat (begin + 1)) unfoldedLines ++ vtodoLines3
          ++ drop (Z.to_nat end_) unfoldedLines in
      let updatedContent := join newline updatedLines ++ newline in
      await _ <- writeFile filePath updatedContent;
      ret (parseTaskFromIcsContent cfg updatedContent (Some filePath))
  end.

Definition toUpdateInput (item : ParsedUnteraufgabe) : UnteraufgabeUpdateInput :=
  {| u_titel := titel item;
     u_status := status item;
     u_freigegeben := Some (freigegeben item);
     u_hinweis := hinweis item |}.

(** [nextHinweis ? nextHinweis : undefined] *)
Definition truthy (nextHinweis : option jsstring) : option jsstring :=
  match nextHinweis with
  | Some (c :: s) => Some (c :: s)
  | _ => None
  end.

Definition nextHinweis (patch : Patch) (current : UnteraufgabeUpdateInput)
  : option jsstring :=
  match p_hinweis patch with
  | None => u_hinweis current
  | Some h => Some (normalizeHinweis cfg h)
  end.

(** The index is an integer here.  The source takes any number, and the
    two comparisons of its guard are false for NaN and for a fraction within
    the range, which are then used as a property name of the array. *)
Definition updateUnteraufgabeInFile (now : UtcDate) (filePath : jsstring)
    (unteraufgabeIndex : Z) (patch : Patch) : IO ParsedTask :=
  await parsed <- readTaskFromFile filePath;
  let unteraufgaben := map toUpdateInput (unteraufgaben parsed) in
  if (unteraufgabeIndex <? 0)%Z || (Z.of_nat (length unteraufgaben) <=? unteraufgabeIndex)%Z
  then throw (IndexOutOfRange unteraufgabeIndex)
  else
    match unteraufgaben !! Z.to_nat unteraufgabeIndex with
    | None => throw UndefinedItem
    | Some current =>
        let updated :=
          {| u_titel := u_titel current;
             u_status := default (u_status current) (p_status patch);
             u_freigegeben := u_freigegeben current;
             u_hinweis := truthy (nextHinweis patch current) |} in
        writeUnteraufgabenToFile now filePath
          (<[Z.to_nat unteraufgabeIndex := updated]> unteraufgaben)
    end.

Definition setUnteraufgabeStatusInFile (now : UtcDate) (filePath : jsstring)
    (unteraufgabeIndex : Z) (status : bool) : IO ParsedTask :=
  updateUnteraufgabeInFile now filePath unteraufgabeIndex
    {| p_status := Some status; p_hinweis := None |}.

Definition setUnteraufgabeHinweisInFile (now : UtcDate) (filePath : jsstring)
    (unteraufgabeIndex : Z) (hinweis : jsstring) : IO ParsedTask :=
  updateUnteraufgabeInFile now filePath unteraufgabeIndex
    {| p_status := None; p_hinweis := Some hinweis |}.




End Store.

End Tasks.

(** ** The reference data resolver: [lib/StammDaten.ts]

    Every public method starts with [reloadIfNeeded], which reads the data
    file again when its modification time has changed and then rebuilds the
    six maps.  A [Repository] is the state that the method finds after that
    call; two calls see the same one as long as the file is not touched in
    between. *)

Module StammDaten.
Import JS.

Record AdresseDatensatz := {
  adresse_ID : Z;
  Strasse : jsstring;
  Hausnummer : jsstring;
  PLZ : jsstring;
  Ort : jsstring
}.

Record PersonDatensatz := {
  person_ID : Z;
  Name : jsstring;
  Telefon : jsstring
}.

Record TypDatensatz := {
  typ_ID : Z;
  typ_Name : jsstring
}.

Record HausDatensatz := {
  haus_Typ_ID : Z;
  haus_ID : Z;
  haus_Adresse_ID : Z
}.

Record BereichDatensatz := {
  bereich_Typ_ID : Z;
  bereich_ID : Z;
  bereich_Haus_ID : Z;
  Eingang : jsstring;
  Lage : jsstring;
  bereich_Person_ID : list Z
}.

Record BereichKey := {
  typId : Z;
  bereichId : Z
}.

Record StammdatenBereich := {
  Adresse : list AdresseDatensatz;
  Person : list PersonDatensatz;
  Typ : list TypDatensatz;
  Haus : list HausDatensatz;
  Bereich : list BereichDatensatz
}.

(** The repository after [rebuildIndexes]: the data and the six maps. *)
Record Repository := {
  data : StammdatenBereich;
  adresseById : gmap Z AdresseDatensatz;
  personById : gmap Z PersonDatensatz;
  typById : gmap Z TypDatensatz;
  typByName : gmap jsstring TypDatensatz;
  hausById : gmap Z HausDatensatz;
  bereichByKey : gmap jsstring BereichDatensatz
}.

(** [`${key.typId}:${key.bereichId}`] *)
Definition bereichKey (key : BereichKey) : jsstring :=
  numberToString (typId key) ++ [COLON] ++ numberToString (bereichId key).

(** The class of the pattern that strips the end of the label: closing
    parenthesis, double quote, single quote. *)
Definition isClosingPunctuation (c : N) : bool :=
  (c =? 41) || (c =? 34) || (c =? 39).

(** The label pattern is: start, any run of code units other than line
    terminators (greedy, first group), one or more white space, one or more
    digits (second group), end.  [greedyPrefix] gives the first group once
    the digits are taken off the end; [r] is the rest, last code unit first.
    The greedy first group leaves to the white space as little as it can, one
    code unit, unless what it would take has a line terminator. *)
Fixpoint greedyPrefix (r : jsstring) : option jsstring :=
  match r with
  | [] => None
  | c :: r' =>
      if isWhiteSpace c
      then (if forallb (fun d => negb (isLineTerminator d)) r'
            then Some (rev r')
            else greedyPrefix r')
      else None
  end.

(** [segment.match(pattern)]: the two groups, or [None] for [null]. *)
Definition matchBezeichnung (segment : jsstring) : option (jsstring * jsstring) :=
  let digits := takeEndWhile isDigit segment in
  let rest := dropEndWhile isDigit segment in
  if Tasks.nonEmpty digits
  then match greedyPrefix (rev rest) with
       | Some typName => Some (typName, digits)
       | None => None
       end
  else None.

(** [normalized.split("-").pop()] *)
Definition lastPiece (normalized : jsstring) : jsstring :=
  List.last (split normalized [HYPHEN]) normalized.

Record BereichMitRelationen := {
  bmr_bereich : BereichDatensatz;
  bmr_haus : option HausDatensatz;
  bmr_typ : option TypDatensatz;
  mieter : list PersonDatensatz
}.

Record HausMitRelationen := {
  hmr_haus : HausDatensatz;
  hmr_adresse : option AdresseDatensatz;
  hmr_typ : option TypDatensatz;
  bereiche : list BereichMitRelationen
}.

Section Lookups.
Context `{UnicodeOps}.

Definition normalizeTypName (typName : jsstring) : jsstring :=
  toLowerCase (trim typName).

Definition rebuildIndexes (stammdaten : StammdatenBereich) : Repository :=
  {| data := stammdaten;
     adresseById :=
       fold_left (fun m adresse => <[adresse_ID adresse := adresse]> m) (Adresse stammdaten) ∅;
     personById :=
       fold_left (fun m person => <[person_ID person := person]> m) (Person stammdaten) ∅;
     typById :=
       fold_left (fun m typ => <[typ_ID typ := typ]> m) (Typ stammdaten) ∅;
     typByName :=
       fold_left (fun m typ => <[normalizeTypName (typ_Name typ) := typ]> m) (Typ stammdaten) ∅;
     hausById :=
       fold_left (fun m haus => <[haus_ID haus := haus]> m) (Haus stammdaten) ∅;
     bereichByKey :=
       fold_left
         (fun m bereich =>
            <[bereichKey {| typId := bereich_Typ_ID bereich; bereichId := bereich_ID bereich |}
              := bereich]> m)
         (Bereich stammdaten) ∅ |}.

Variable repo : Repository.

Definition getHausById (hausId : Z) : option HausDatensatz :=
  hausById repo !! hausId.

Definition getBereichByKey (key : BereichKey) : option BereichDatensatz :=
  bereichByKey repo !! bereichKey key.

Definition getBereichById (typId bereichId : Z) : option BereichDatensatz :=
  getBereichByKey {| typId := typId; bereichId := bereichId |}.

Definition getBereichByTypNameUndId (typName : jsstring) (bereichId : Z)
  : option BereichDatensatz :=
  match typByName repo !! normalizeTypName typName with
  | None => None
  | Some typ => getBereichByKey {| typId := typ_ID typ; bereichId := bereichId |}
  end.

Definition getBereichByBezeichnung (bezeichnung : jsstring) : option BereichDatensatz :=
  let normalized :=
    dropEndWhile isClosingPunctuation (collapseWhiteSpace (trim bezeichnung)) in
  let segment :=
    if includes normalized [HYPHEN] then trim (lastPiece normalized) else normalized in
  match matchBezeichnung segment with
  | None => None
  | Some (typName, bereichId) => getBereichByTypNameUndId typName (digitsToZ bereichId)
  end.

Definition getStammdaten : StammdatenBereich := data repo.

Definition getBereicheByHausId (hausId : Z) : list BereichDatensatz :=
  List.filter (fun bereich => (bereich_Haus_ID bereich =? hausId)%Z) (Bereich (data repo)).

(** [includes] on an array of numbers. *)
Definition getBereicheByPersonId (personId : Z) : list BereichDatensatz :=
  List.filter
    (fun bereich => existsb (fun id => (id =? personId)%Z) (bereich_Person_ID bereich))
    (Bereich (data repo)).

(** The tenants are looked up one by one; [filter] drops the ones that the
    map does not have. *)
Definition resolveBereich (bereich : BereichDatensatz) : BereichMitRelationen :=
  {| bmr_bereich := bereich;
     bmr_haus := hausById repo !! bereich_Haus_ID bereich;
     bmr_typ := typById repo !! bereich_Typ_ID bereich;
     mieter := omap (fun personId => personById repo !! personId) (bereich_Person_ID bereich) |}.

Definition getBereichMitRelationenByKey (key : BereichKey) : option BereichMitRelationen :=
  match getBereichByKey key with
  | None => None
  | Some bereich => Some (resolveBereich bereich)
  end.

Definition getBereichMitRelationen (typId bereichId : Z) : option BereichMitRelationen :=
  getBereichMitRelationenByKey {| typId := typId; bereichId := bereichId |}.

Definition getHausMitRelationen (hausId : Z) : option HausMitRelationen :=
  match getHausById hausId with
  | None => None
  | Some haus =>
      Some {| hmr_haus := haus;
              hmr_adresse := adresseById repo !! haus_Adresse_ID haus;
              hmr_typ := typById repo !! haus_Typ_ID haus;
              bereiche := map resolveBereich (getBereicheByHausId hausId) |}
  end.

End Lookups.

End StammDaten.

(** ** The update endpoint: [app/api/tasks/[uid]/subtasks/[index]/route.ts] *)

Module Api.
Import JS Tasks StammDaten.









(** A code unit of the class of the pattern of [isValidUid]: an ASCII letter,
    a digit or the hyphen. *)
Definition isUidUnit (c : N) : bool :=
  ((65 <=? c) && (c <=? 90)) || ((97 <=? c) && (c <=? 122)) || isDigit c || (c =? HYPHEN).

(** The pattern is: start, one or more code units of the class, end. *)
Definition isValidUid (uid : jsstring) : bool :=
  nonEmpty uid && forallb isUidUnit uid.







Section Handler.
Context `{UnicodeOps}.
Variable cfg : TaskModifierConfig.





End Handler.

End Api.

(** ** The task page: [app/page.tsx]

    Of the page only the reading of the time stamps that the task store
    writes is modelled. *)

Module Page.
Import JS Tasks.

(** What [parseIcsUtcDateTime] gives: null, the date of the UTC fields that
    the pattern reads, or what the date parser of the runtime makes of the
    text. *)
Inductive ParsedDate :=
| NoDate
| UtcOf (fields : UtcDate)
| RuntimeDate (value : jsstring).

(** A group of [n] digits at the start. *)
Definition digitGroup (n : nat) (s : jsstring) : option (jsstring * jsstring) :=
  let group := take n s in
  if (length group =? n)%nat && forallb isDigit group then Some (group, drop n s) else None.

(** One given code unit at the start. *)
Definition letter (c : N) (s : jsstring) : option jsstring :=
  match s with
  | x :: r => if x =? c then Some r else None
  | [] => None
  end.

(** The pattern is: start, four digits, two digits, two digits, the letter
    T, three times two digits, an optional letter Z, end.  The result holds
    the arguments of [Date.UTC]. *)
Definition matchIcsUtcDateTime (value : jsstring) : option UtcDate :=
  '(y, r) ← digitGroup 4 value;
  '(m, r) ← digitGroup 2 r;
  '(d, r) ← digitGroup 2 r;
  r ← letter 84 r;
  '(hh, r) ← digitGroup 2 r;
  '(mm, r) ← digitGroup 2 r;
  '(ss, r) ← digitGroup 2 r;
  if streq r [] || streq r [90]
  then Some {| utcFullYear := digitsToZ y; utcMonth := digitsToZ m - 1;
               utcDate := digitsToZ d; utcHours := digitsToZ hh;
               utcMinutes := digitsToZ mm; utcSeconds := digitsToZ ss |}
  else None.

Definition parseIcsUtcDateTime (value : option jsstring) : ParsedDate :=
  match value with
  | None => NoDate
  | Some [] => NoDate
  | Some v =>
      match matchIcsUtcDateTime v with
      | Some fields => UtcOf fields
      | None => RuntimeDate v
      end
  end.

End Page.

(** ** Notions that the properties are stated with *)

Definition notSemicolon (c : N) : bool := negb (c =? JS.SEMICOLON).

(** A line of the component other than a further begin marker. *)
Definition notBegin (line : jsstring) : bool := negb (JS.streq line Tasks.BEGIN_VTODO).

(** The physical line of a continuation: the space or tab that marks it,
    then its content. *)
Definition continuationLine (wp : N * jsstring) : jsstring := fst wp :: snd wp.

(** A code unit that can stand inside a line: neither LF nor CR. *)
Definition lineUnit (c : N) : Prop := c <> JS.LF /\ c <> JS.CR.

(** A logical line as it is folded: the first physical line and the
    continuations. *)
Definition physicalLines (folded : jsstring * list (N * jsstring)) : list jsstring :=
  fst folded :: map continuationLine (snd folded).

Definition logicalLine (folded : jsstring * list (N * jsstring)) : jsstring :=
  fst folded ++ concat (map snd (snd folded)).

(** A line that does not start like a continuation. *)
Definition startsLine (l : jsstring) : Prop :=
  JS.startsWith l [JS.SP] = false /\ JS.startsWith l [JS.TAB] = false.

Section Notions.
Context `{UnicodeOps}.

(** A content line carries the key [key]: the text before its first colon is
    not empty and, cut at its first semicolon (where the parameters start),
    equals [key] up to case. *)
Definition HasKey (key line : jsstring) : Prop :=
  exists name params value,
    line = name ++ params ++ [JS.COLON] ++ value
    /\ (JS.COLON ∉ name ++ params)
    /\ (JS.SEMICOLON ∉ name)
    /\ (params = [] \/ exists q, params = JS.SEMICOLON :: q)
    /\ name ++ params <> []
    /\ toUpperCase name = toUpperCase key.

End Notions.

(** *** Notions about [normalizeHinweis] *)

Section HintNotions.
Import JS Tasks.

(** A space-free text at the start of the output was at the start of the input. *)
Definition prefixReflecting (s o : jsstring) : Prop :=
  forall p, (SP ∉ p) -> startsWith o p = true -> startsWith s p = true.

(** No two white space units in a row, and no white space but the space. *)
Fixpoint singleSpaced (afterSpace : bool) (s : jsstring) : bool :=
  match s with
  | [] => true
  | c :: s' =>
      if isWhiteSpace c
      then (c =? SP) && negb afterSpace && singleSpaced true s'
      else singleSpaced false s'
  end.

Definition headOk (s : jsstring) : Prop :=
  match s with
  | [] => True
  | c :: _ => isWhiteSpace c = false
  end.

(** What [normalizeHinweis] leaves: nothing to trim and nothing to collapse. *)
Definition Tidy (s : jsstring) : Prop :=
  headOk s /\ trimEnd s = s /\ singleSpaced false s = true.

Definition statusSymbolsOf (cfg : TaskModifierConfig) : list jsstring :=
  [ sym_freigegeben (nichtBegonnen (statusSymbole cfg));
    sym_gesperrt (nichtBegonnen (statusSymbole cfg));
    sym_freigegeben (erledigt (statusSymbole cfg));
    sym_gesperrt (erledigt (statusSymbole cfg)) ].

(** A text that NFKC keeps. *)
Definition Normal `{UnicodeOps} (s : jsstring) : Prop := nfkc s = s.

End HintNotions.

(** *** Notions about the round trip of the description *)

Section RoundTripNotions.
Import JS Tasks.



(** The tuple of a subtask that the round trip law is about; an absent
    [freigegeben] of the input counts as [true], as [buildDescriptionValue]
    takes it. *)
Definition tupleOfParsed (p : ParsedUnteraufgabe) : bool * bool * jsstring * option jsstring :=
  (status p, freigegeben p, titel p, hinweis p).





End RoundTripNotions.

(** *** Notions about the text escaping *)

Section EscapeNotions.
Import JS Tasks.

(** An escaped text is a row of tokens: a code unit as it is, or a backslash
    and a code unit. *)
Inductive EscapeToken :=
| Plain (c : N)
| Escaped (c : N).

Definition unitsOf (t : EscapeToken) : jsstring :=
  match t with
  | Plain c => [c]
  | Escaped c => [BACKSLASH; c]
  end.

(** The token that [escapeIcsText] makes of a code unit. *)
Definition tokenOf (c : N) : EscapeToken :=
  if c =? BACKSLASH then Escaped BACKSLASH
  else if c =? LF then Escaped 110
  else if c =? COMMA then Escaped COMMA
  else if c =? SEMICOLON then Escaped SEMICOLON
  else Plain c.

(** The matcher of a backslash and one code unit of a class; each of the four
    patterns of [unescapeIcsText] is one. *)
Definition escapedUnit (P : N -> bool) : matcher :=
  fun s =>
    match s with
    | 92 :: c :: _ => if P c then Some 2%nat else None
    | _ => None
    end.

Definition isLetterN (c : N) : bool := (c =? 110) || (c =? 78).

(** What one pass of [unescapeIcsText] makes of a token. *)
Definition unescapeToken (P : N -> bool) (r : N) (t : EscapeToken) : EscapeToken :=
  match t with
  | Plain c => Plain c
  | Escaped c => if P c then Plain r else Escaped c
  end.

(** No escaped backslash stands before a plain code unit of the class. *)
Fixpoint seamless (P : N -> bool) (ts : list EscapeToken) : Prop :=
  match ts with
  | [] => True
  | t :: more =>
      match t, more with
      | Escaped c, Plain d :: _ => c = BACKSLASH -> P d = false
      | _, _ => True
      end /\ seamless P more
  end.

Definition plainOk (t : EscapeToken) : Prop :=
  match t with
  | Plain c => c <> BACKSLASH
  | Escaped _ => True
  end.


End EscapeNotions.

(** *** Notions about the properties of a component *)

Section KeyNotions.
Import JS Tasks.
Context `{UnicodeOps}.

(** The lines that carry the key. *)
Definition carriers (key : jsstring) (lines : list jsstring) : list jsstring :=
  List.filter (lineHasKey (toUpperCase key)) lines.

(** The value that [setProperty] reads from a line. *)
Definition valueOfLine (line : jsstring) : jsstring :=
  unescapeIcsText (sliceFrom line (Z.to_nat (indexOf line [COLON]) + 1)).

(** A key whose upper case form can stand before the colon of a line and is
    read back as it is. *)
Definition properKey (key : jsstring) : Prop :=
  toUpperCase key <> []
  /\ (COLON ∉ toUpperCase key)
  /\ (SEMICOLON ∉ toUpperCase key)
  /\ toUpperCase (toUpperCase key) = toUpperCase key.



End KeyNotions.

(** *** Notions about the subtasks that are parsed *)

Section ParsedNotions.
Import JS Tasks.
Context `{UnicodeOps}.

(** What [parseStatusPrefix] gives when no symbol stands at the start. *)
Definition noPrefix (rawPart : jsstring) : StatusPrefix :=
  {| sp_symbol := []; sp_status := false; sp_freigegeben := true;
     sp_inhalt := trim rawPart |}.

(** What holds of every subtask that is parsed. *)
Definition wellParsed (cfg : TaskModifierConfig) (p : ParsedUnteraufgabe) : Prop :=
  raw p <> [] /\ trim (raw p) = raw p
  /\ startsWith (raw p) (symbol p) = true
  /\ (symbol p = [] \/ symbol p = toSymbol cfg (status p) (freigegeben p))
  /\ trim (titel p) = titel p
  /\ match hinweis p with
     | None => True
     | Some h =>
         h <> [] /\ Tidy h /\ (length h <= 20)%nat /\ Forall (fun c => isControl c = false) h
     end.

(** No status symbol of the configuration is the start of another one, and
    the four are different. *)
Definition prefixFree (cfg : TaskModifierConfig) : Prop :=
  NoDup (statusSymbolsOf cfg)
  /\ forall a b, a ∈ statusSymbolsOf cfg -> b ∈ statusSymbolsOf cfg ->
                 startsWith a b = true -> a = b.

End ParsedNotions.

(** *** Notions about time stamps and paths *)

Section StampNotions.
Import JS Tasks.

Definition twoDigits (v : Z) : bool :=
  match pad v with
  | [a; b] => isDigit a && isDigit b && (digitsToZ [a; b] =? v)%Z
  | _ => false
  end.

Definition fourDigits (v : Z) : bool :=
  match numberToString v with
  | [a; b; c; d] =>
      isDigit a && isDigit b && isDigit c && isDigit d && (digitsToZ [a; b; c; d] =? v)%Z
  | _ => false
  end.

(** A calendar date with a year of four digits. *)
Definition calendarDate (date : UtcDate) : Prop :=
  (1000 <= utcFullYear date <= 9999)%Z /\ (0 <= utcMonth date <= 11)%Z
  /\ (1 <= utcDate date <= 31)%Z /\ (0 <= utcHours date <= 23)%Z
  /\ (0 <= utcMinutes date <= 59)%Z /\ (0 <= utcSeconds date <= 59)%Z.


End StampNotions.

(** ** Sample data *)

Module Sample.
Import JS Tasks.

Definition path : jsstring := Eval cbv in str "data/tasks/42.ics".

(** A task file with LF line ends and a final line end. *)
Definition content : jsstring :=
  Eval cbv in
    join [LF]
      [ str "BEGIN:VCALENDAR"; str "BEGIN:VTODO"; str "UID:42";
        str "Summary;LANGUAGE=de:Keller 3 // Fenster";
        str "description;LANGUAGE=de:* Bring trash"; str "END:VTODO";
        str "END:VCALENDAR"; [] ].

Definition world : World := {| files := {[ path := content ]}; writes := [] |}.

Definition now : UtcDate :=
  {| utcFullYear := 2024; utcMonth := 0; utcDate := 5;
     utcHours := 3; utcMinutes := 4; utcSeconds := 59 |}.

Definition markDone : Patch := {| p_status := Some true; p_hinweis := None |}.

(** A component that is begun and not ended. *)
Definition openEnded : jsstring :=
  Eval cbv in join [LF] [str "BEGIN:VTODO"; str "SUMMARY:x"].

(** A component with a line before it and a line behind it. *)
Definition bounded : jsstring :=
  Eval cbv in
    join [LF] [str "X:1"; str "BEGIN:VTODO"; str "SUMMARY:x"; str "END:VTODO"; str "Y:2"].

(** The lines of a component whose description has a parameter and is
    written in lower case. *)
Definition component : list jsstring :=
  Eval cbv in [str "UID:42"; str "description;LANGUAGE=de:old"; str "DESCRIPTION:other"].

(** A configuration with check boxes as status symbols. *)
Definition checkboxModifier : TaskModifierConfig :=
  Eval cbv in
    readModifierConfig
      (Some {| m_Trennzeichen := None; m_HinweisTrennzeichen := None;
               m_NichtBegonnenFreigegeben := Some (str "[ ]");
               m_NichtBegonnenGesperrt := Some (str "-[ ]");
               m_ErledigtFreigegeben := Some (str "[x]");
               m_ErledigtGesperrt := Some (str "-[x]");
               m_SummaryTrennzeichen := None; m_SummaryInhalt := None |}).

(** A hint that is normalized and holds a backslash and the letter n. *)
Definition escapingHint : list UnteraufgabeUpdateInput :=
  [ {| u_titel := str "Fenster"; u_status := false; u_freigegeben := Some true;
       u_hinweis := Some [97; BACKSLASH; 110; 98] |} ].


(** Reference data with the category Keller and its area 3. *)
Definition keller3 : StammDaten.BereichDatensatz :=
  {| StammDaten.bereich_Typ_ID := 2; StammDaten.bereich_ID := 3;
     StammDaten.bereich_Haus_ID := 1; StammDaten.Eingang := str "A";
     StammDaten.Lage := str "UG"; StammDaten.bereich_Person_ID := [7%Z] |}.

Definition stammdaten : StammDaten.StammdatenBereich :=
  {| StammDaten.Adresse := [];
     StammDaten.Person :=
       [ {| StammDaten.person_ID := 7; StammDaten.Name := str "Mia";
            StammDaten.Telefon := str "0" |} ];
     StammDaten.Typ :=
       [ {| StammDaten.typ_ID := 1; StammDaten.typ_Name := str "Wohnung" |};
         {| StammDaten.typ_ID := 2; StammDaten.typ_Name := str "Keller" |} ];
     StammDaten.Haus :=
       [ {| StammDaten.haus_Typ_ID := 1; StammDaten.haus_ID := 1;
            StammDaten.haus_Adresse_ID := 1 |} ];
     StammDaten.Bereich :=
       [ {| StammDaten.bereich_Typ_ID := 1; StammDaten.bereich_ID := 3;
            StammDaten.bereich_Haus_ID := 1; StammDaten.Eingang := str "A";
            StammDaten.Lage := str "EG"; StammDaten.bereich_Person_ID := [] |};
         keller3 ] |}.

(** Titles that the encoding does not carry. *)
Definition titleWithSeparator : list UnteraufgabeUpdateInput :=
  [ {| u_titel := str "Fenster ## gross"; u_status := false; u_freigegeben := Some true;
       u_hinweis := None |} ].

Definition titleWithBlanks : list UnteraufgabeUpdateInput :=
  [ {| u_titel := str " Fenster "; u_status := true; u_freigegeben := Some false;
       u_hinweis := None |} ].

(** A task file whose component is begun and not ended. *)
Definition openEndedTask : jsstring :=
  Eval cbv in join [LF] [str "BEGIN:VTODO"; str "DESCRIPTION:* a"].

Definition openEndedWorld : World :=
  {| files := {[ path := openEndedTask ]}; writes := [] |}.

(** The lines of a component with one description. *)
Definition oneDescription : list jsstring :=
  Eval cbv in [str "UID:42"; str "description;LANGUAGE=de:old"].

(** A logical line that is folded once, and one that is not. *)
Definition folded : list (jsstring * list (N * jsstring)) :=
  Eval cbv in [ (str "SUMMARY:Kel", [(SP, str "ler 3")]); (str "UID:42", []) ].

(** A configuration that names the two parts of a summary. *)
Definition summaryModifier : TaskModifierConfig :=
  Eval cbv in
    readModifierConfig
      (Some {| m_Trennzeichen := None; m_HinweisTrennzeichen := None;
               m_NichtBegonnenFreigegeben := None; m_NichtBegonnenGesperrt := None;
               m_ErledigtFreigegeben := None; m_ErledigtGesperrt := None;
               m_SummaryTrennzeichen := None;
               m_SummaryInhalt := Some [str "Bereich"; str "Aufgabe"] |}).



End Sample.

(** * Properties *)

Import JS Tasks.

(** A decidable statement about concrete data, settled by running its
    decision procedure. *)
Ltac by_compute := apply (bool_decide_unpack _); vm_compute; exact I.

(** ** Facts about the string primitives *)

Section StringFacts.

Lemma streq_spec (a b : jsstring) : streq a b = true <-> a = b.
Proof.
  revert b; induction a as [|x a IH]; intros [|y b]; simpl; try (split; congruence).
  rewrite andb_true_iff, N.eqb_eq, IH. split; [intros [-> ->] | intros [= -> ->]]; done.
Qed.

Lemma streq_refl (a : jsstring) : streq a a = true.
Proof. by apply streq_spec. Qed.

Lemma streq_neq (a b : jsstring) : a <> b -> streq a b = false.
Proof.
  intros Hne. destruct (streq a b) eqn:E; [|done]. apply streq_spec in E. done.
Qed.

Lemma startsWith_spec (s p : jsstring) :
  startsWith s p = true <-> exists r, s = p ++ r.
Proof.
  revert s; induction p as [|a p IH]; intros [|b s]; simpl.
  - split; [intros _; by exists [] | done].
  - split; [intros _; by exists (b :: s) | done].
  - split; [done | intros [r Hr]; discriminate].
  - rewrite andb_true_iff, N.eqb_eq, IH. split.
    + intros [-> [r ->]]. by exists r.
    + intros [r [= -> ->]]. split; [done | by exists r].
Qed.

Lemma startsWith_app (p r : jsstring) : startsWith (p ++ r) p = true.
Proof. apply startsWith_spec. by exists r. Qed.

Lemma startsWith_nil (s : jsstring) : startsWith s [] = true.
Proof. by destruct s. Qed.

Lemma literal_app (p r : jsstring) : literal p (p ++ r) = Some (length p).
Proof. unfold literal. by rewrite startsWith_app. Qed.

Lemma literal_None (p s : jsstring) : startsWith s p = false -> literal p s = None.
Proof. unfold literal. by intros ->. Qed.

(** Stepping over the code units of a match. *)
Lemma replaceAux_skip (m : matcher) (rep p s : jsstring) :
  replaceAux m rep (length p) (p ++ s) = replaceAux m rep 0 s.
Proof. induction p as [|c p IH]; simpl; [done | apply IH]. Qed.

Lemma splitAux_skip (m : matcher) (p cur s : jsstring) :
  splitAux m (length p) cur (p ++ s) = splitAux m 0 cur s.
Proof. induction p as [|c p IH]; simpl; [done | apply IH]. Qed.

Lemma replaceAll_match (pat rep r : jsstring) :
  pat <> [] ->
  replaceAll (literal pat) rep (pat ++ r) = rep ++ replaceAll (literal pat) rep r.
Proof.
  intros Hne. destruct pat as [|c pat]; [done|].
  pose proof (literal_app (c :: pat) r) as E.
  change ((c :: pat) ++ r) with (c :: (pat ++ r)) in *.
  unfold replaceAll. cbn [replaceAux]. rewrite E. cbn [length].
  by rewrite replaceAux_skip.
Qed.

Lemma replaceAll_step (pat rep : jsstring) (c : N) (s : jsstring) :
  startsWith (c :: s) pat = false ->
  replaceAll (literal pat) rep (c :: s) = c :: replaceAll (literal pat) rep s.
Proof.
  intros Hno. unfold replaceAll. cbn [replaceAux]. by rewrite literal_None.
Qed.

(** The induction that follows the scan of [replaceAll] for a literal
    pattern. *)
Lemma replaceAll_literal_ind (pat rep : jsstring) (P : jsstring -> jsstring -> Prop) :
  pat <> [] ->
  P [] [] ->
  (forall r o, P r o -> P (pat ++ r) (rep ++ o)) ->
  (forall c s o, startsWith (c :: s) pat = false -> P s o -> P (c :: s) (c :: o)) ->
  forall s, P s (replaceAll (literal pat) rep s).
Proof.
  intros Hne Hnil Hmatch Hstep s.
  remember (length s) as n eqn:Hn. revert s Hn.
  induction n as [n IH] using lt_wf_ind. intros s Hn.
  destruct s as [|c s]; [exact Hnil|].
  destruct (startsWith (c :: s) pat) eqn:E.
  - apply startsWith_spec in E as [r Hr]. rewrite Hr.
    rewrite replaceAll_match by done. apply Hmatch.
    apply (IH (length r)); [|done].
    subst n. rewrite Hr, length_app. destruct pat; [done | simpl; lia].
  - rewrite replaceAll_step by done. apply Hstep; [done|].
    apply (IH (length s)); [subst n; simpl; lia | done].
Qed.


Lemma startsWith_single (c d : N) (s : jsstring) :
  startsWith (d :: s) [c] = (c =? d).
Proof. simpl. destruct s; by rewrite andb_true_r. Qed.

Lemma indexOfFrom_single (i : Z) (s : jsstring) (c : N) :
  ((c ∉ s) /\ indexOfFrom i s [c] = (-1)%Z)
  \/ (exists l v, s = l ++ c :: v /\ (c ∉ l) /\ indexOfFrom i s [c] = (i + Z.of_nat (length l))%Z).
Proof.
  revert i; induction s as [|d s IH]; intros i.
  - left. split; [apply not_elem_of_nil | done].
  - cbn [indexOfFrom]. rewrite startsWith_single.
    destruct (N.eqb_spec c d) as [->|Hne].
    + right. exists [], s. split; [done|]. split; [apply not_elem_of_nil | simpl; lia].
    + destruct (IH (i + 1)%Z) as [[Hnot E] | (l & v & -> & Hnot & E)].
      * left. split; [|done]. rewrite not_elem_of_cons. done.
      * right. exists (d :: l), v. split; [done|]. split.
        -- rewrite not_elem_of_cons. done.
        -- rewrite E. simpl length. lia.
Qed.

Lemma first_occurrence_unique (c : N) (l l' v v' : jsstring) :
  l ++ c :: v = l' ++ c :: v' -> (c ∉ l) -> (c ∉ l') -> l = l'.
Proof.
  revert l'; induction l as [|x l IH]; intros [|y l'] E Hl Hl'; simplify_eq/=.
  - done.
  - exfalso. apply Hl'. apply elem_of_cons. by left.
  - exfalso. apply Hl. apply elem_of_cons. by left.
  - f_equal. apply IH; [done| |].
    + intros Hin. apply Hl. apply elem_of_cons. by right.
    + intros Hin. apply Hl'. apply elem_of_cons. by right.
Qed.

Lemma indexOf_single_app (l v : jsstring) (c : N) :
  (c ∉ l) -> indexOf (l ++ c :: v) [c] = Z.of_nat (length l).
Proof.
  intros Hnot. unfold indexOf.
  destruct (indexOfFrom_single 0 (l ++ c :: v) c) as [[Hno _] | (l' & v' & E & Hnot' & ->)].
  - exfalso. apply Hno. apply elem_of_app. right. apply elem_of_cons. by left.
  - by rewrite (first_occurrence_unique c l l' v v' E Hnot Hnot').
Qed.


Lemma hd_splitAux_semicolon (cur s : jsstring) :
  hd [] (take 1 (splitAux (literal [SEMICOLON]) 0 cur s)) = cur ++ takeStartWhile notSemicolon s.
Proof.
  revert cur; induction s as [|c s IH]; intros cur.
  - simpl. by rewrite app_nil_r.
  - cbn [splitAux]. unfold literal at 1. rewrite startsWith_single. unfold notSemicolon. simpl takeStartWhile.
    rewrite N.eqb_sym.
    destruct (c =? SEMICOLON) eqn:E; simpl.
    + by rewrite app_nil_r.
    + rewrite IH. by rewrite <- app_assoc.
Qed.

Lemma firstPiece_takeWhile (left : jsstring) :
  firstPiece left = takeStartWhile notSemicolon left.
Proof. unfold firstPiece, split, splitBy. by rewrite hd_splitAux_semicolon. Qed.

Lemma take_drop_while (p : N -> bool) (s : jsstring) :
  s = takeStartWhile p s ++ dropStartWhile p s.
Proof. induction s as [|c s IH]; simpl; [done|]. destruct (p c); simpl; congruence. Qed.

Lemma takeStartWhile_Forall (p : N -> bool) (s : jsstring) :
  Forall (fun c => p c = true) (takeStartWhile p s).
Proof. induction s as [|c s IH]; simpl; [done|]. destruct (p c) eqn:E; auto. Qed.

Lemma dropStartWhile_head (p : N -> bool) (s : jsstring) :
  dropStartWhile p s = [] \/ exists c q, dropStartWhile p s = c :: q /\ p c = false.
Proof.
  induction s as [|c s IH]; simpl; [by left|].
  destruct (p c) eqn:E; [done|]. right. by exists c, s.
Qed.

Lemma takeStartWhile_app (p : N -> bool) (a b : jsstring) :
  Forall (fun c => p c = true) a ->
  (b = [] \/ exists c q, b = c :: q /\ p c = false) ->
  takeStartWhile p (a ++ b) = a.
Proof.
  intros Ha Hb. induction Ha as [|x a Hx Ha IH]; simpl.
  - destruct Hb as [->|(c & q & -> & Hc)]; simpl; [done|]. by rewrite Hc.
  - by rewrite Hx, IH.
Qed.

Lemma findIndexFrom_first {A} (p : A -> bool) (l : list A) (i : nat) (x : A) (k : Z) :
  l !! i = Some x -> p x = true ->
  (forall j y, (j < i)%nat -> l !! j = Some y -> p y = false) ->
  findIndexFrom k (fun a _ => p a) l = (k + Z.of_nat i)%Z.
Proof.
  revert i k; induction l as [|a l IH]; intros i k Hi Hx Hbefore; [done|].
  destruct i as [|i]; simpl in *.
  - simplify_eq. rewrite Hx. lia.
  - rewrite (Hbefore 0%nat a) by (done || lia).
    rewrite (IH i (k + 1)%Z); [lia | done | done |].
    intros j y Hj Hy. apply (Hbefore (S j) y); [lia | done].
Qed.

Lemma findIndexFrom_none {A} (p : A -> bool) (l : list A) (k : Z) :
  (forall x, x ∈ l -> p x = false) ->
  findIndexFrom k (fun a _ => p a) l = (-1)%Z.
Proof.
  revert k; induction l as [|a l IH]; intros k Hall; [done|]. simpl.
  rewrite Hall by (apply elem_of_cons; by left).
  apply IH. intros x Hx. apply Hall. apply elem_of_cons. by right.
Qed.



Lemma startsWith_cons_ne (c d : N) (s pat : jsstring) :
  c <> d -> startsWith (d :: s) (c :: pat) = false.
Proof. intros Hne. simpl. by apply N.eqb_neq in Hne as ->. Qed.

(** A stretch without the first code unit of the pattern is copied. *)
Lemma replaceAll_app_free (c : N) (pat rep l r : jsstring) :
  (c ∉ l) ->
  replaceAll (literal (c :: pat)) rep (l ++ r) = l ++ replaceAll (literal (c :: pat)) rep r.
Proof.
  induction l as [|d l IH]; intros Hfree; [done|].
  apply not_elem_of_cons in Hfree as [Hd Hl].
  change ((d :: l) ++ r) with (d :: (l ++ r)).
  rewrite replaceAll_step by (by apply startsWith_cons_ne).
  rewrite IH by done. done.
Qed.

Lemma replaceAll_free (c : N) (pat rep l : jsstring) :
  (c ∉ l) -> replaceAll (literal (c :: pat)) rep l = l.
Proof.
  intros Hfree. rewrite <- (app_nil_r l) at 1. rewrite replaceAll_app_free by done.
  cbn. by rewrite app_nil_r.
Qed.

Lemma splitAux_app_free (c : N) (cur l r : jsstring) :
  (c ∉ l) ->
  splitAux (literal [c]) 0 cur (l ++ r) = splitAux (literal [c]) 0 (cur ++ l) r.
Proof.
  revert cur; induction l as [|d l IH]; intros cur Hfree; [by rewrite app_nil_r|].
  apply not_elem_of_cons in Hfree as [Hd Hl].
  change ((d :: l) ++ r) with (d :: (l ++ r)). cbn [splitAux].
  rewrite literal_None by (by apply startsWith_cons_ne).
  rewrite IH by done. by rewrite <- app_assoc.
Qed.

Lemma splitAux_sep (c : N) (cur r : jsstring) :
  splitAux (literal [c]) 0 cur (c :: r) = cur :: splitAux (literal [c]) 0 [] r.
Proof.
  cbn [splitAux]. unfold literal at 1. rewrite startsWith_single, N.eqb_refl. done.
Qed.

Lemma join_cons (sep p : jsstring) (rest : list jsstring) :
  rest <> [] -> join sep (p :: rest) = p ++ sep ++ join sep rest.
Proof. by destruct rest. Qed.

(** Splitting what was joined with a one-unit separator that the pieces do
    not hold gives the pieces back. *)
Lemma split_join_single (c : N) (lines : list jsstring) (cur : jsstring) :
  Forall (fun l => c ∉ l) lines -> lines <> [] ->
  splitAux (literal [c]) 0 cur (join [c] lines)
  = match lines with [] => [] | l :: more => (cur ++ l) :: more end.
Proof.
  intros Hall. revert cur. induction Hall as [|l lines Hl Hall IH]; intros cur Hne; [done|].
  destruct lines as [|l' lines].
  - simpl. rewrite <- (app_nil_r l) at 1. rewrite splitAux_app_free by done. done.
  - rewrite join_cons by done. rewrite splitAux_app_free by done.
    change ([c] ++ join [c] (l' :: lines)) with (c :: join [c] (l' :: lines)).
    rewrite splitAux_sep. f_equal. rewrite IH by done. done.
Qed.

Lemma unfoldStep_nil (line : jsstring) : unfoldStep [] line = [line].
Proof. unfold unfoldStep. cbn [length Nat.ltb Nat.leb]. by rewrite andb_false_r. Qed.

Lemma appendToLast_single (l rest : jsstring) : appendToLast [l] rest = [l ++ rest].
Proof. done. Qed.



(** What [findIndex] returns: -1 when no element passes, else the place of
    the first that does. *)
Lemma findIndexFrom_spec {A} (p : A -> Z -> bool) (l : list A) (k : Z) :
  (findIndexFrom k p l = (-1)%Z
   /\ forall i x, l !! i = Some x -> p x (k + Z.of_nat i)%Z = false)
  \/ (exists l1 x l2,
        l = l1 ++ x :: l2
        /\ findIndexFrom k p l = (k + Z.of_nat (length l1))%Z
        /\ p x (k + Z.of_nat (length l1))%Z = true
        /\ forall i y, l1 !! i = Some y -> p y (k + Z.of_nat i)%Z = false).
Proof.
  revert k; induction l as [|a l IH]; intros k.
  - left. split; [done|]. intros i x Hi. by rewrite lookup_nil in Hi.
  - cbn [findIndexFrom]. destruct (p a k) eqn:E.
    + right. exists [], a, l. cbn [length app]. rewrite Z.add_0_r.
      split; [done|]. split; [done|]. split; [done|].
      intros i y Hi. by rewrite lookup_nil in Hi.
    + destruct (IH (k + 1)%Z) as [[E1 Hall] | (l1 & x & l2 & -> & E1 & Hx & Hall)].
      * left. split; [done|]. intros [|i] x Hi; simpl in Hi.
        -- simplify_eq. by rewrite Z.add_0_r.
        -- replace (k + Z.of_nat (S i))%Z with (k + 1 + Z.of_nat i)%Z by lia. eauto.
      * right. exists (a :: l1), x, l2. cbn [length].
        replace (k + Z.of_nat (S (length l1)))%Z with (k + 1 + Z.of_nat (length l1))%Z by lia.
        split; [done|]. split; [done|]. split; [done|].
        intros [|i] y Hi; simpl in Hi.
        -- simplify_eq. by rewrite Z.add_0_r.
        -- replace (k + Z.of_nat (S i))%Z with (k + 1 + Z.of_nat i)%Z by lia. eauto.
Qed.

Lemma findIndexFrom_app {A} (p : A -> Z -> bool) (l1 l2 : list A) (k : Z) :
  (forall i x, l1 !! i = Some x -> p x (k + Z.of_nat i)%Z = false) ->
  findIndexFrom k p (l1 ++ l2) = findIndexFrom (k + Z.of_nat (length l1)) p l2.
Proof.
  revert k; induction l1 as [|a l1 IH]; intros k Hall.
  - simpl. by rewrite Z.add_0_r.
  - cbn [app findIndexFrom length].
    pose proof (Hall 0%nat a eq_refl) as E. rewrite Z.add_0_r in E. rewrite E.
    rewrite IH.
    + f_equal. lia.
    + intros i x Hi. replace (k + 1 + Z.of_nat i)%Z with (k + Z.of_nat (S i))%Z by lia.
      by apply Hall.
Qed.


End StringFacts.

(** ** Upserting a property line *)

Section Upsert.
Context `{UnicodeOps}.

Lemma lineHasKey_spec (key line : jsstring) :
  lineHasKey (toUpperCase key) line = true <-> HasKey key line.
Proof.
  unfold lineHasKey, HasKey. split.
  - destruct (indexOfFrom_single 0 line COLON) as [[Hno E] | (l & v & -> & Hnot & E)];
      unfold indexOf; rewrite E; [done|].
    destruct l as [|c l]; [done|].
    replace (Z.to_nat (0 + Z.of_nat (length (c :: l)))) with (length (c :: l)) by lia.
    destruct (_ <=? 0)%Z eqn:Hle; [apply Z.leb_le in Hle; simpl in Hle; lia|].
    unfold slice. rewrite drop_0, Nat.sub_0_r, take_app_length.
    rewrite firstPiece_takeWhile. intros Heq%streq_spec.
    exists (takeStartWhile notSemicolon (c :: l)), (dropStartWhile notSemicolon (c :: l)), v.
    rewrite app_assoc, <- take_drop_while. repeat split; try done.
    + intros Hin. pose proof (takeStartWhile_Forall notSemicolon (c :: l)) as Hall.
      rewrite Forall_forall in Hall. apply Hall in Hin. discriminate.
    + destruct (dropStartWhile_head notSemicolon (c :: l)) as [->|(d & q & -> & Hd)]; [by left|].
      right. exists q. unfold notSemicolon in Hd. apply negb_false_iff, N.eqb_eq in Hd. by subst.
  - intros (name & params & value & -> & Hcolon & Hsemi & Hparams & Hne & Hkey).
    rewrite app_assoc. change ([COLON] ++ value) with (COLON :: value).
    rewrite indexOf_single_app by done.
    destruct (_ <=? 0)%Z eqn:Hle.
    { apply Z.leb_le in Hle. destruct (name ++ params); [done | simpl in Hle; lia]. }
    rewrite Nat2Z.id. unfold slice. rewrite drop_0, Nat.sub_0_r, take_app_length.
    rewrite firstPiece_takeWhile, takeStartWhile_app.
    + rewrite Hkey. apply streq_refl.
    + apply Forall_forall. intros c Hc. unfold notSemicolon.
      apply negb_true_iff, N.eqb_neq. intros ->. done.
    + destruct Hparams as [->|[q ->]]; [by left|]. right. by exists SEMICOLON, q.
Qed.

(** C9: [upsertProperty] replaces the first line that carries the key, up to
    case and whatever parameters follow the key, by the plain line made of
    the upper-cased key, a colon and the value, so the parameters of the
    replaced line are gone; when no line carries the key, the plain line is
    appended at the end.  [writeUnteraufgabenToFile] calls it on the lines of
    the component for DESCRIPTION, DTSTAMP and LAST-MODIFIED. *)
Theorem upsertProperty_spec (lines : list jsstring) (key value : jsstring) :
  (forall i line,
      lines !! i = Some line -> HasKey key line ->
      (forall j other, (j < i)%nat -> lines !! j = Some other -> ~ HasKey key other) ->
      upsertProperty lines key value = <[i := toUpperCase key ++ [COLON] ++ value]> lines)
  /\ ((forall line, line ∈ lines -> ~ HasKey key line) ->
      upsertProperty lines key value = lines ++ [toUpperCase key ++ [COLON] ++ value]).
Proof.
  split.
  - intros i line Hi Hkey Hfirst. unfold upsertProperty, findIndex.
    rewrite (findIndexFrom_first (lineHasKey (toUpperCase key)) lines i line 0).
    + destruct (_ <=? _)%Z eqn:E; [|apply Z.leb_gt in E; lia].
      by rewrite Z.add_0_l, Nat2Z.id.
    + done.
    + by apply lineHasKey_spec.
    + intros j y Hj Hy. destruct (lineHasKey (toUpperCase key) y) eqn:E; [|done].
      apply lineHasKey_spec in E. by apply Hfirst in Hy.
  - intros Hnone. unfold upsertProperty, findIndex.
    rewrite (findIndexFrom_none (lineHasKey (toUpperCase key))); [done|].
    intros x Hx. destruct (lineHasKey (toUpperCase key) x) eqn:E; [|done].
    apply lineHasKey_spec in E. by apply Hnone in Hx.
Qed.
End Upsert.

Lemma upsertProperty_spec_witness :
  upsertProperty (H := asciiUnicode) Sample.component (str "DESCRIPTION") (str "* a")
  = [str "UID:42"; str "DESCRIPTION:* a"; str "DESCRIPTION:other"].
Proof.
  apply (proj1 (@upsertProperty_spec asciiUnicode Sample.component (str "DESCRIPTION")
                  (str "* a")) 1%nat (str "description;LANGUAGE=de:old")).
  - reflexivity.
  - exists (str "description"), (str ";LANGUAGE=de"), (str "old").
    split; [reflexivity|]. split; [by_compute|]. split; [by_compute|].
    split; [right; by exists (str "LANGUAGE=de")|]. split; [discriminate | reflexivity].
  - intros j other Hj Hother Hkey. apply lineHasKey_spec in Hkey.
    destruct j as [|j]; [|lia]. vm_compute in Hother. injection Hother as <-.
    vm_compute in Hkey. discriminate.
Defined.

(** ** Text escaping *)

(** C7, at the description that [buildDescriptionValue] makes of a subtask
    whose hint holds a backslash and the letter n: escaping doubles the
    backslash, and unescaping, which replaces backslash-n before it replaces
    the doubled backslash, reads the second backslash and the n as a line
    feed. *)
Lemma unescape_escape_backslash_n :
  let v := buildDescriptionValue defaultModifier Sample.escapingHint in
  v = str "* Fenster ## a" ++ [BACKSLASH; 110] ++ str "b"
  /\ escapeIcsText v = str "* Fenster ## a" ++ [BACKSLASH; BACKSLASH; 110] ++ str "b"
  /\ unescapeIcsText (escapeIcsText v) = str "* Fenster ## a" ++ [BACKSLASH; LF] ++ str "b"
  /\ unescapeIcsText (escapeIcsText v) <> v.
Proof. vm_compute. repeat split; congruence. Qed.

(** ** Resolving a label *)

Section Labels.
Import StammDaten.
Context `{UnicodeOps}.

(** C6: the label Keller 3 resolves to what the category name Keller and the
    number 3 resolve to, and so does the label with a building in front of a
    hyphen, of which only the part behind the last hyphen is used. *)
Theorem getBereichByBezeichnung_Keller (repo : Repository) :
  getBereichByBezeichnung repo (str "Keller 3")
    = getBereichByTypNameUndId repo (str "Keller") 3
  /\ getBereichByBezeichnung repo (str "Geb" ++ [228] ++ str "ude A - Keller 3")
    = getBereichByTypNameUndId repo (str "Keller") 3.
Proof. split; reflexivity. Qed.

End Labels.

(** With the category and the area in the data, the label resolves to the
    area. *)
Example getBereichByBezeichnung_sample :
  StammDaten.getBereichByBezeichnung (H := asciiUnicode)
    (StammDaten.rebuildIndexes (H := asciiUnicode) Sample.stammdaten)
    (str "Geb" ++ [228] ++ str "ude A - Keller 3")
  = Some Sample.keller3.
Proof. vm_compute. reflexivity. Qed.

(** ** Updating one subtask *)

Section Update.
Context `{UnicodeOps}.

(** C2: an index below zero or not below the number of subtasks parsed from
    the file makes [updateUnteraufgabeInFile] fail with the error that names
    the index, and leaves the world as it was: the content of every file and
    the log of writes. *)
Theorem update_out_of_range (cfg : TaskModifierConfig) (now : UtcDate)
    (filePath content : jsstring) (index : Z) (patch : Patch) (w : World) :
  files w !! filePath = Some content ->
  (index < 0
   \/ Z.of_nat (length (unteraufgaben (parseTaskFromIcsContent cfg content (Some filePath))))
      <= index)%Z ->
  updateUnteraufgabeInFile cfg now filePath index patch w
    = (inl (IndexOutOfRange index), w).
Proof.
  intros Hfile Hrange.
  unfold updateUnteraufgabeInFile, readTaskFromFile, bind, readFile, ret.
  rewrite Hfile. rewrite length_map.
  destruct (_ || _) eqn:E; [done|].
  apply orb_false_iff in E as [E1 E2].
  apply Z.ltb_ge in E1. apply Z.leb_gt in E2. lia.
Qed.

End Update.

Lemma update_out_of_range_witness :
  updateUnteraufgabeInFile (H := asciiUnicode) defaultModifier Sample.now Sample.path 1
    Sample.markDone Sample.world
  = (inl (IndexOutOfRange 1), Sample.world).
Proof.
  apply (@update_out_of_range asciiUnicode defaultModifier Sample.now Sample.path
           Sample.content 1 Sample.markDone Sample.world).
  - vm_compute. reflexivity.
  - right. vm_compute. discriminate.
Defined.

(** ** Extracting the properties *)

Section Extraction.
Context `{UnicodeOps}.

Lemma collectVtodo_skip (pre rest : list jsstring) :
  (BEGIN_VTODO ∉ pre) -> (END_VTODO ∉ pre) ->
  collectVtodo false (pre ++ rest) = collectVtodo false rest.
Proof.
  induction pre as [|l pre IH]; intros Hb He; [done|].
  apply not_elem_of_cons in Hb as [Hb1 Hb2]. apply not_elem_of_cons in He as [He1 He2].
  simpl. rewrite (streq_neq l BEGIN_VTODO), (streq_neq l END_VTODO) by done. by apply IH.
Qed.

Lemma collectVtodo_inside (region rest : list jsstring) :
  (END_VTODO ∉ region) ->
  collectVtodo true (region ++ rest) = List.filter notBegin region ++ collectVtodo true rest.
Proof.
  induction region as [|l region IH]; intros He; [done|].
  apply not_elem_of_cons in He as [He1 He2]. simpl. unfold notBegin at 1.
  destruct (streq l BEGIN_VTODO) eqn:E; simpl; [by apply IH|].
  rewrite (streq_neq l END_VTODO) by done. simpl. f_equal. by apply IH.
Qed.

Lemma collectVtodo_end (inside : bool) (post : list jsstring) :
  collectVtodo inside (END_VTODO :: post) = [].
Proof. reflexivity. Qed.

Lemma collectVtodo_no_begin (lines : list jsstring) :
  (BEGIN_VTODO ∉ lines) -> collectVtodo false lines = [].
Proof.
  induction lines as [|l lines IH]; intros Hb; [done|].
  apply not_elem_of_cons in Hb as [Hb1 Hb2]. simpl.
  rewrite (streq_neq l BEGIN_VTODO) by done.
  destruct (streq l END_VTODO); [done | by apply IH].
Qed.

Lemma collectVtodo_end_first (pre post : list jsstring) :
  (BEGIN_VTODO ∉ pre) -> collectVtodo false (pre ++ END_VTODO :: post) = [].
Proof.
  induction pre as [|l pre IH]; intros Hb; [done|].
  apply not_elem_of_cons in Hb as [Hb1 Hb2]. simpl.
  rewrite (streq_neq l BEGIN_VTODO) by done.
  destruct (streq l END_VTODO); [done | by apply IH].
Qed.

(** X16: a component that is begun and not ended is read up to the end of
    the content: the properties are those of the lines behind the begin
    marker, when no end marker stands before it. *)
Lemma parseIcsProperties_open_ended (content : jsstring) (pre region : list jsstring) :
  unfoldIcsLines content = pre ++ BEGIN_VTODO :: region ->
  (BEGIN_VTODO ∉ pre) -> (END_VTODO ∉ pre) -> (END_VTODO ∉ region) ->
  parseIcsProperties content = propertiesOfLines (List.filter notBegin region).
Proof.
  unfold parseIcsProperties. intros -> Hb He Hr.
  rewrite collectVtodo_skip by done. cbn [collectVtodo]. rewrite streq_refl.
  rewrite <- (app_nil_r region) at 1. rewrite collectVtodo_inside by done.
  by rewrite app_nil_r.
Qed.

(** C3, amended: the properties come from the unfolded lines behind the first
    begin marker and before the first end marker behind it, further begin
    markers left out, provided no end marker stands before the begin marker;
    what stands before the begin marker or from the end marker on adds
    nothing.  Without a begin marker, or with an end marker before the first
    one, there are no properties. *)
Theorem parseIcsProperties_region (content : jsstring) :
  (forall pre region post,
      unfoldIcsLines content = pre ++ BEGIN_VTODO :: region ++ END_VTODO :: post ->
      (BEGIN_VTODO ∉ pre) -> (END_VTODO ∉ pre) -> (END_VTODO ∉ region) ->
      parseIcsProperties content = propertiesOfLines (List.filter notBegin region))
  /\ ((BEGIN_VTODO ∉ unfoldIcsLines content) -> parseIcsProperties content = ∅)
  /\ (forall pre post,
        unfoldIcsLines content = pre ++ END_VTODO :: post -> (BEGIN_VTODO ∉ pre) ->
        parseIcsProperties content = ∅).
Proof.
  unfold parseIcsProperties. repeat split.
  - intros pre region post -> Hb He Hr.
    rewrite collectVtodo_skip by done. cbn [collectVtodo].
    rewrite streq_refl, collectVtodo_inside by done.
    by rewrite collectVtodo_end, app_nil_r.
  - intros Hb. by rewrite collectVtodo_no_begin.
  - intros pre post -> Hb. by rewrite collectVtodo_end_first.
Qed.
End Extraction.

(** C3 as stated fails: this content has a begin marker and no end marker, so
    it has no bounded region, and yet a property is extracted from it. *)
Lemma parseIcsProperties_without_end :
  getVtodoBounds (unfoldIcsLines Sample.openEnded) = None
  /\ parseIcsProperties (H := asciiUnicode) Sample.openEnded <> ∅.
Proof.
  split; [vm_compute; reflexivity|].
  intros E.
  assert (parseIcsProperties (H := asciiUnicode) Sample.openEnded !! str "SUMMARY"
          = Some (str "x")) as Hl by (vm_compute; reflexivity).
  rewrite E in Hl. by rewrite lookup_empty in Hl.
Qed.

Lemma parseIcsProperties_region_witness :
  parseIcsProperties (H := asciiUnicode) Sample.bounded
  = propertiesOfLines (H := asciiUnicode) [str "SUMMARY:x"].
Proof.
  apply (proj1 (@parseIcsProperties_region asciiUnicode Sample.bounded)
           [str "X:1"] [str "SUMMARY:x"] [str "Y:2"]).
  - vm_compute. reflexivity.
  - by_compute.
  - by_compute.
  - by_compute.
Defined.

(** ** Unfolding *)

Section Unfolding.


Lemma unfold_continuations (acc : jsstring) (conts : list (N * jsstring)) :
  Forall (fun wp => fst wp = SP \/ fst wp = TAB) conts ->
  fold_left unfoldStep (map continuationLine conts) [acc]
  = [acc ++ concat (map snd conts)].
Proof.
  intros Hall. revert acc. induction Hall as [|[w p] conts Hw Hall IH]; intros acc.
  - simpl. by rewrite app_nil_r.
  - simpl in Hw. cbn [map fold_left concat snd]. rewrite app_assoc, <- IH. f_equal.
    unfold unfoldStep, continuationLine. cbn [fst snd].
    destruct Hw as [-> | ->]; reflexivity.
Qed.

Lemma normalizeLineEnds (newline : jsstring) (lines : list jsstring) :
  newline = [LF] \/ newline = CRLF ->
  Forall (Forall lineUnit) lines ->
  replaceAll (literal [CR; LF]) [LF] (join newline lines) = join [LF] lines.
Proof.
  intros Hnl Hall. induction Hall as [|l lines Hl Hall IH]; [done|].
  assert (CR ∉ l) as Hcr.
  { intros Hin. rewrite Forall_forall in Hl. destruct (Hl _ Hin). done. }
  destruct lines as [|l' lines].
  - simpl. by apply replaceAll_free.
  - rewrite (join_cons newline), (join_cons [LF]) by done.
    rewrite replaceAll_app_free by done. f_equal.
    destruct Hnl as [-> | ->].
    + change ([LF] ++ join [LF] (l' :: lines)) with (LF :: join [LF] (l' :: lines)).
      rewrite replaceAll_step by done. f_equal. apply IH.
    + unfold CRLF. rewrite replaceAll_match by done. f_equal. apply IH.
Qed.

(** C8: a logical line cut into a first physical line and continuation
    lines, each a space or a tab followed by the next piece, joined by LF or
    by CRLF, unfolds to the one line that the pieces make in a row. *)
Theorem unfold_folded_line (newline first : jsstring) (conts : list (N * jsstring)) :
  newline = [LF] \/ newline = CRLF ->
  Forall lineUnit first ->
  Forall (fun wp => (fst wp = SP \/ fst wp = TAB) /\ Forall lineUnit (snd wp)) conts ->
  unfoldIcsLines (join newline (first :: map continuationLine conts))
  = [first ++ concat (map snd conts)].
Proof.
  intros Hnl Hfirst Hconts. unfold unfoldIcsLines.
  assert (Forall (Forall lineUnit) (first :: map continuationLine conts)) as Hall.
  { constructor; [done|]. apply Forall_map. eapply Forall_impl; [exact Hconts|].
    intros [w p] [Hw Hp]. constructor; [|done]. simpl in *.
    destruct Hw as [-> | ->]; split; done. }
  rewrite normalizeLineEnds by done.
  unfold split, splitBy. rewrite split_join_single; [| |done].
  - cbn [app fold_left]. rewrite unfoldStep_nil.
    apply unfold_continuations. eapply Forall_impl; [exact Hconts|]. by intros ? [? _].
  - eapply Forall_impl; [exact Hall|]. intros l Hl Hin.
    rewrite Forall_forall in Hl. destruct (Hl _ Hin). done.
Qed.

End Unfolding.

Lemma unfold_folded_line_witness :
  unfoldIcsLines
    (join CRLF (str "DESCRIPTION:* Bring"
                :: map continuationLine [(SP, str " trash"); (TAB, str " today")]))
  = [str "DESCRIPTION:* Bring" ++ concat (map snd [(SP, str " trash"); (TAB, str " today")])].
Proof.
  apply (unfold_folded_line CRLF (str "DESCRIPTION:* Bring")
           [(SP, str " trash"); (TAB, str " today")]).
  - right. reflexivity.
  - unfold lineUnit. by_compute.
  - unfold lineUnit. by_compute.
Defined.

(** The same for a whole content: every logical line but the first must not
    start like a continuation. *)

Section UnfoldingLines.

Lemma appendToLast_snoc (acc : list jsstring) (l rest : jsstring) :
  appendToLast (acc ++ [l]) rest = acc ++ [l ++ rest].
Proof.
  induction acc as [|a acc IH]; [done|]. cbn [app appendToLast]. rewrite IH.
  by destruct acc.
Qed.

Lemma unfold_continuations_after (acc : list jsstring) (l : jsstring)
    (conts : list (N * jsstring)) :
  Forall (fun wp => fst wp = SP \/ fst wp = TAB) conts ->
  fold_left unfoldStep (map continuationLine conts) (acc ++ [l])
  = acc ++ [l ++ concat (map snd conts)].
Proof.
  intros Hall. revert l. induction Hall as [|[w p] conts Hw Hall IH]; intros l.
  - simpl. by rewrite app_nil_r.
  - simpl in Hw. cbn [map fold_left concat snd]. rewrite app_assoc, <- IH. f_equal.
    unfold unfoldStep, continuationLine. cbn [fst snd].
    rewrite length_app. cbn [length].
    replace (0 <? length acc + 1)%nat with true by (symmetry; apply Nat.ltb_lt; lia).
    destruct Hw as [-> | ->]; cbn; apply appendToLast_snoc.
Qed.

Lemma unfoldStep_start (acc : list jsstring) (l : jsstring) :
  acc = [] \/ startsLine l -> unfoldStep acc l = acc ++ [l].
Proof.
  unfold unfoldStep. intros [-> | [-> ->]]; [|done].
  cbn [length Nat.ltb Nat.leb]. by rewrite andb_false_r.
Qed.

Lemma unfold_groups (groups : list (jsstring * list (N * jsstring))) (acc : list jsstring) :
  Forall (fun g => Forall (fun wp => fst wp = SP \/ fst wp = TAB) (snd g)) groups ->
  match groups with
  | [] => True
  | g :: more => (acc = [] \/ startsLine (fst g)) /\ Forall (fun g' => startsLine (fst g')) more
  end ->
  fold_left unfoldStep (concat (map physicalLines groups)) acc
  = acc ++ map logicalLine groups.
Proof.
  intros Hall. revert acc. induction Hall as [|[first conts] groups Hg Hall IH]; intros acc Hstart.
  - simpl. by rewrite app_nil_r.
  - destruct Hstart as [Hfirst Hmore]. cbn [map concat physicalLines fst snd app fold_left].
    rewrite fold_left_app.
    rewrite unfoldStep_start by done. rewrite unfold_continuations_after by done.
    rewrite IH.
    + by rewrite <- app_assoc.
    + destruct groups as [|g more]; [done|]. inversion Hmore; subst. split; [by right | done].
Qed.

(** X15: a content of logical lines, each folded into a first line and
    continuation lines that start with a space or a tab, and all joined by
    LF or by CRLF, unfolds to the logical lines, when no part has a CR or an
    LF and no logical line but the first starts with a space or a tab. *)
Lemma unfold_folded_lines (newline : jsstring)
    (groups : list (jsstring * list (N * jsstring))) :
  newline = [LF] \/ newline = CRLF ->
  groups <> [] ->
  Forall (fun g => Forall lineUnit (fst g)
                   /\ Forall (fun wp => (fst wp = SP \/ fst wp = TAB)
                                        /\ Forall lineUnit (snd wp)) (snd g)) groups ->
  Forall (fun g => startsLine (fst g)) (tail groups) ->
  unfoldIcsLines (join newline (concat (map physicalLines groups))) = map logicalLine groups.
Proof.
  intros Hnl Hne Hall Hstart. unfold unfoldIcsLines.
  assert (Forall (Forall lineUnit) (concat (map physicalLines groups))) as Hunits.
  { apply Forall_concat, Forall_map. eapply Forall_impl; [exact Hall|].
    intros [first conts] [Hf Hc]. constructor; [done|]. apply Forall_map.
    eapply Forall_impl; [exact Hc|]. intros [w p] [Hw Hp]. constructor; [|done].
    simpl in *. destruct Hw as [-> | ->]; split; done. }
  assert (concat (map physicalLines groups) <> []) as Hne'.
  { destruct groups as [|[first conts] more]; done. }
  rewrite normalizeLineEnds by done.
  unfold split, splitBy. rewrite split_join_single; [| |done].
  - destruct (concat (map physicalLines groups)) as [|l more] eqn:E; [done|].
    cbn [app]. rewrite <- E. rewrite unfold_groups; [done| |].
    + eapply Forall_impl; [exact Hall|]. intros g [_ Hc].
      eapply Forall_impl; [exact Hc|]. by intros wp [? _].
    + destruct groups as [|g gs]; [done|]. split; [by left | done].
  - eapply Forall_impl; [exact Hunits|]. intros l Hl Hin.
    rewrite Forall_forall in Hl. destruct (Hl _ Hin). done.
Qed.

End UnfoldingLines.

(** ** Writing the subtasks back *)

Section Writing.

(** The lines of a conformant file around its component. *)
Lemma getVtodoBounds_Some (lines : list jsstring) (b e : Z) :
  getVtodoBounds lines = Some (b, e) ->
  exists before region after,
    lines = before ++ [BEGIN_VTODO] ++ region ++ [END_VTODO] ++ after
    /\ (BEGIN_VTODO ∉ before) /\ (END_VTODO ∉ region)
    /\ b = Z.of_nat (length before)
    /\ e = Z.of_nat (length before + 1 + length region).
Proof.
  unfold getVtodoBounds, findIndex.
  destruct (findIndexFrom_spec (fun line (_ : Z) => streq line BEGIN_VTODO) lines 0)
    as [[-> _] | (before & x & rest & -> & -> & Hx & Hbefore)]; [done|].
  apply streq_spec in Hx as ->. rewrite Z.add_0_l.
  destruct (_ <? 0)%Z eqn:Hb; [done|]. clear Hb.
  set (q := fun (line : jsstring) (index : Z) =>
              (Z.of_nat (length before) <? index)%Z && streq line END_VTODO).
  rewrite (cons_middle BEGIN_VTODO), app_assoc.
  rewrite (findIndexFrom_app q (before ++ [BEGIN_VTODO]) rest 0).
  2:{ intros i x Hi. unfold q. apply lookup_lt_Some in Hi. rewrite length_app in Hi.
      simpl in Hi. destruct (_ <? _)%Z eqn:E; [|done]. apply Z.ltb_lt in E. lia. }
  rewrite length_app. cbn [length].
  destruct (findIndexFrom_spec q rest (0 + Z.of_nat (length before + 1)))
    as [[-> _] | (region & y & after & -> & -> & Hy & Hregion)]; [done|].
  destruct (_ <? 0)%Z eqn:He; [done|]. clear He.
  intros [= <- <-]. unfold q in Hy. apply andb_true_iff in Hy as [_ Hy].
  apply streq_spec in Hy as ->.
  exists before, region, after. rewrite <- !app_assoc. split; [done|]. split; [|split].
  - intros Hin. apply list_elem_of_lookup in Hin as [i Hi].
    apply Hbefore in Hi. by rewrite streq_refl in Hi.
  - intros Hin. apply list_elem_of_lookup in Hin as [i Hi].
    apply Hregion in Hi. unfold q in Hi. rewrite streq_refl, andb_true_r in Hi.
    apply Z.ltb_ge in Hi. lia.
  - split; lia.
Qed.

Context `{UnicodeOps}.

End Writing.


(** ** Occurrences of a text in a text *)

Section Occurrences.

Lemma indexOfFrom_sign (i : Z) (s t : jsstring) :
  (0 <= i)%Z ->
  (indexOfFrom i s t = (-1)%Z /\ indexOfFrom 0 s t = (-1)%Z)
  \/ ((0 <= indexOfFrom i s t)%Z /\ (0 <= indexOfFrom 0 s t)%Z).
Proof.
  revert i. induction s as [|c s IH]; intros i Hi; cbn [indexOfFrom].
  - destruct (startsWith [] t); [right; simpl; lia | left; done].
  - destruct (startsWith (c :: s) t); [right; simpl; lia|].
    destruct (IH (i + 1)%Z ltac:(lia)) as [[-> E]|[E1 E2]].
    + left. split; [done|]. destruct (IH 1%Z ltac:(lia)) as [[E' _]|[_ E']]; [done|].
      rewrite E in E'. lia.
    + right. split; [done|]. destruct (IH 1%Z ltac:(lia)) as [[_ E']|[E' _]]; [|done].
      rewrite E' in E2. lia.
Qed.

Lemma includes_nil (t : jsstring) : includes [] t = startsWith [] t.
Proof. unfold includes, indexOf. simpl. by destruct (startsWith [] t). Qed.

Lemma includes_cons (c : N) (s t : jsstring) :
  includes (c :: s) t = startsWith (c :: s) t || includes s t.
Proof.
  unfold includes, indexOf. cbn [indexOfFrom].
  destruct (startsWith (c :: s) t); [done|]. cbn [orb]. change (0 + 1)%Z with 1%Z.
  destruct (indexOfFrom_sign 1 s t ltac:(lia)) as [[-> ->]|[E1 E2]]; [done|].
  apply Z.leb_le in E1, E2. by rewrite E1, E2.
Qed.

Lemma includes_spec (s t : jsstring) :
  includes s t = true <-> exists a b, s = a ++ t ++ b.
Proof.
  induction s as [|c s IH].
  - rewrite includes_nil, startsWith_spec. split.
    + intros [r Hr]. by exists [], r.
    + intros (a & b & E). destruct a; [|done]. by exists b.
  - rewrite includes_cons, orb_true_iff, startsWith_spec, IH. split.
    + intros [[r Hr] | (a & b & ->)]; [by exists [], r | by exists (c :: a), b].
    + intros (a & b & E). destruct a as [|x a]; [left; by exists b|].
      right. injection E as -> ->. by exists a, b.
Qed.

Lemma includes_app_false (a b t : jsstring) :
  includes (a ++ b) t = false -> includes a t = false /\ includes b t = false.
Proof.
  intros E. split.
  - destruct (includes a t) eqn:Ea; [|done]. apply includes_spec in Ea as (x & y & ->).
    rewrite <- E. symmetry. apply includes_spec. exists x, (y ++ b). by rewrite <- !app_assoc.
  - destruct (includes b t) eqn:Eb; [|done]. apply includes_spec in Eb as (x & y & ->).
    rewrite <- E. symmetry. apply includes_spec. exists (a ++ x), y. by rewrite <- !app_assoc.
Qed.

Lemma includes_cons_false (c : N) (s t : jsstring) :
  includes (c :: s) t = false -> startsWith (c :: s) t = false /\ includes s t = false.
Proof. rewrite includes_cons. apply orb_false_iff. Qed.

(** What is absent is not replaced. *)
Lemma replaceAll_absent (pat rep s : jsstring) :
  includes s pat = false -> replaceAll (literal pat) rep s = s.
Proof.
  induction s as [|c s IH]; [done|].
  intros [E1 E2]%includes_cons_false. rewrite replaceAll_step by done. f_equal. by apply IH.
Qed.

Lemma dropEndWhile_prefix (p : N -> bool) (s : jsstring) :
  exists w, s = dropEndWhile p s ++ w /\ Forall (fun c => p c = true) w.
Proof.
  induction s as [|c s (w & E & Hw)]; [by exists []|]. cbn [dropEndWhile].
  destruct (dropEndWhile p s) as [|d r] eqn:Er.
  - destruct (p c) eqn:Ec.
    + exists (c :: s). split; [done|]. simpl in E. subst w. by constructor.
    + exists s. split; [done|]. simpl in E. by subst w.
  - exists w. split; [|done]. simpl. f_equal. exact E.
Qed.

Lemma dropEndWhile_idem (p : N -> bool) (s : jsstring) :
  dropEndWhile p (dropEndWhile p s) = dropEndWhile p s.
Proof.
  induction s as [|c s IH]; [done|]. cbn [dropEndWhile].
  destruct (dropEndWhile p s) as [|d r] eqn:Er.
  - destruct (p c) eqn:Ec; [done|]. simpl. by rewrite Ec.
  - cbn [dropEndWhile]. cbn [dropEndWhile] in IH. by rewrite IH.
Qed.

Lemma dropEndWhile_length (p : N -> bool) (s : jsstring) :
  (length (dropEndWhile p s) <= length s)%nat.
Proof.
  destruct (dropEndWhile_prefix p s) as (w & E & _). rewrite E at 2. rewrite length_app. lia.
Qed.

Lemma splitAux_nonempty (m : matcher) (k : nat) (cur s : jsstring) :
  splitAux m k cur s <> [].
Proof.
  revert k cur; induction s as [|c s IH]; intros k cur; [done|].
  cbn [splitAux]. destruct k as [|k]; [|apply IH].
  destruct (m (c :: s)) as [[|n]|]; [apply IH | done | apply IH].
Qed.

(** [split] then [join] is [replace]. *)
Lemma join_splitAux (m : matcher) (sep : jsstring) (k : nat) (cur s : jsstring) :
  join sep (splitAux m k cur s) = cur ++ replaceAux m sep k s.
Proof.
  revert k cur; induction s as [|c s IH]; intros k cur.
  - simpl. by rewrite app_nil_r.
  - cbn [splitAux replaceAux]. destruct k as [|k]; [|apply IH].
    destruct (m (c :: s)) as [[|n]|].
    + rewrite IH. by rewrite <- app_assoc.
    + rewrite join_cons by apply splitAux_nonempty. rewrite IH. done.
    + rewrite IH. by rewrite <- app_assoc.
Qed.

Lemma removeToken_replaceAll (s token : jsstring) :
  token <> [] -> removeToken s token = replaceAll (literal token) [SP] s.
Proof.
  intros Hne. unfold removeToken, split, splitBy. destruct token; [done|].
  by rewrite join_splitAux.
Qed.

End Occurrences.

(** ** What the steps of [normalizeHinweis] keep *)

Section Absence.


Lemma startsWith_space (o p : jsstring) :
  (SP ∉ p) -> startsWith (SP :: o) p = true -> p = [].
Proof.
  destruct p as [|c p]; [done|]. intros Hsp. simpl.
  intros [E _]%andb_true_iff. apply N.eqb_eq in E. subst c.
  exfalso. apply Hsp. apply elem_of_cons. by left.
Qed.

Lemma startsWith_space_false (o t : jsstring) :
  t <> [] -> (SP ∉ t) -> startsWith (SP :: o) t = false.
Proof.
  intros Hne Hsp. destruct (startsWith (SP :: o) t) eqn:E; [|done].
  by apply startsWith_space in E.
Qed.

Lemma prefixReflecting_cons (c : N) (s o : jsstring) :
  prefixReflecting s o -> prefixReflecting (c :: s) (c :: o).
Proof.
  intros IH [|d p] Hsp; [done|]. simpl.
  intros [E1 E2]%andb_true_iff. rewrite E1. simpl. apply IH; [|done].
  intros Hin. apply Hsp. apply elem_of_cons. by right.
Qed.

Lemma prefixReflecting_space (s o : jsstring) : prefixReflecting s (SP :: o).
Proof. intros p Hsp E. apply startsWith_space in E as ->; [|done]. apply startsWith_nil. Qed.

Lemma replaceAll_prefixReflecting (u s : jsstring) :
  u <> [] -> prefixReflecting s (replaceAll (literal u) [SP] s).
Proof.
  intros Hu. apply (replaceAll_literal_ind u [SP] prefixReflecting); [done| | |].
  - intros p _ E. done.
  - intros r o _. apply prefixReflecting_space.
  - intros c r o _ IH. by apply prefixReflecting_cons.
Qed.

Lemma collapse_prefixReflecting (s : jsstring) :
  prefixReflecting s (collapseAux false s).
Proof.
  induction s as [|c s IH]; [by intros p _ E|]. cbn [collapseAux].
  destruct (isWhiteSpace c); [apply prefixReflecting_space | by apply prefixReflecting_cons].
Qed.

Variable t : jsstring.
Hypothesis t_nonempty : t <> [].
Hypothesis t_spacefree : SP ∉ t.

Lemma includes_space_cons (o : jsstring) :
  includes o t = false -> includes (SP :: o) t = false.
Proof. intros E. by rewrite includes_cons, startsWith_space_false, E. Qed.

Lemma includes_reflect_cons (c : N) (s o : jsstring) :
  prefixReflecting (c :: s) (c :: o) ->
  startsWith (c :: s) t = false -> includes o t = false ->
  includes (c :: o) t = false.
Proof.
  intros Hp E1 E2. rewrite includes_cons, E2, orb_false_r.
  destruct (startsWith (c :: o) t) eqn:E; [|done].
  apply Hp in E; [congruence | done].
Qed.

(** Removing another token brings no occurrence of [t]. *)
Lemma replaceAll_keeps_absent (u s : jsstring) :
  u <> [] -> includes s t = false ->
  includes (replaceAll (literal u) [SP] s) t = false.
Proof.
  intros Hu.
  apply (replaceAll_literal_ind u [SP]
           (fun s o => prefixReflecting s o /\ (includes s t = false -> includes o t = false)));
    [done| | |].
  - split; [by intros p _ E | done].
  - intros r o [_ IH]. split; [apply prefixReflecting_space|].
    intros [_ E]%includes_app_false. apply includes_space_cons. by apply IH.
  - intros c r o _ [Hp IH]. split; [by apply prefixReflecting_cons|].
    intros [E1 E2]%includes_cons_false.
    apply (includes_reflect_cons c r o); [by apply prefixReflecting_cons | done | by apply IH].
Qed.

(** Removing [t] leaves no occurrence of it. *)
Lemma replaceAll_self_absent (s : jsstring) :
  includes (replaceAll (literal t) [SP] s) t = false.
Proof.
  apply (replaceAll_literal_ind t [SP]
           (fun s o => prefixReflecting s o /\ includes o t = false)); [done| | |].
  - split; [by intros p _ E|]. rewrite includes_nil. by destruct t.
  - intros r o [_ IH]. split; [apply prefixReflecting_space | by apply includes_space_cons].
  - intros c r o E [Hp IH]. split; [by apply prefixReflecting_cons|].
    apply (includes_reflect_cons c r o); [by apply prefixReflecting_cons | done | done].
Qed.

Lemma collapse_keeps_absent (inRun : bool) (s : jsstring) :
  includes s t = false -> includes (collapseAux inRun s) t = false.
Proof.
  revert inRun; induction s as [|c s IH]; intros inRun; [done|].
  intros [E1 E2]%includes_cons_false. cbn [collapseAux].
  destruct (isWhiteSpace c).
  - destruct inRun; [by apply IH | apply includes_space_cons; by apply IH].
  - apply (includes_reflect_cons c s); [|done|by apply IH].
    apply prefixReflecting_cons, collapse_prefixReflecting.
Qed.

Lemma trimStart_keeps_absent (s : jsstring) :
  includes s t = false -> includes (trimStart s) t = false.
Proof.
  intros E. rewrite (take_drop_while isWhiteSpace s) in E.
  by apply includes_app_false in E as [_ E].
Qed.

Lemma trimEnd_keeps_absent (s : jsstring) :
  includes s t = false -> includes (trimEnd s) t = false.
Proof.
  intros E. destruct (dropEndWhile_prefix isWhiteSpace s) as (w & Hw & _).
  rewrite Hw in E. by apply includes_app_false in E as [E _].
Qed.

Lemma take_keeps_absent (n : nat) (s : jsstring) :
  includes s t = false -> includes (take n s) t = false.
Proof.
  intros E. rewrite <- (take_drop n s) in E. by apply includes_app_false in E as [E _].
Qed.

Lemma removeTokens_keep_absent (tokens : list jsstring) (s : jsstring) :
  Forall (fun u => u <> []) tokens -> includes s t = false ->
  includes (fold_left removeToken tokens s) t = false.
Proof.
  intros Hall. revert s. induction Hall as [|u tokens Hu Hall IH]; intros s E; [done|].
  cbn [fold_left]. apply IH. rewrite removeToken_replaceAll by done.
  by apply replaceAll_keeps_absent.
Qed.

Lemma removeTokens_absent (tokens : list jsstring) (s : jsstring) :
  Forall (fun u => u <> []) tokens -> t ∈ tokens ->
  includes (fold_left removeToken tokens s) t = false.
Proof.
  intros Hall. revert s. induction Hall as [|u tokens Hu Hall IH]; intros s Hin.
  - by apply elem_of_nil in Hin.
  - cbn [fold_left]. apply elem_of_cons in Hin as [<- | Hin]; [|by apply IH].
    apply removeTokens_keep_absent; [done|].
    rewrite removeToken_replaceAll by done. apply replaceAll_self_absent.
Qed.

End Absence.

Section Units.
(** A property of code units that the space has is kept by every step. *)
Variable Q : N -> Prop.
Hypothesis Q_space : Q SP.

Lemma replaceAll_Forall (u s : jsstring) :
  u <> [] -> Forall Q s -> Forall Q (replaceAll (literal u) [SP] s).
Proof.
  intros Hu.
  apply (replaceAll_literal_ind u [SP] (fun s o => Forall Q s -> Forall Q o)); [done| | |].
  - done.
  - intros r o IH [_ Hr]%Forall_app. constructor; [done | by apply IH].
  - intros c r o _ IH Hall. inversion Hall; subst. constructor; [done | by apply IH].
Qed.

Lemma removeTokens_Forall (tokens : list jsstring) (s : jsstring) :
  Forall (fun u => u <> []) tokens -> Forall Q s ->
  Forall Q (fold_left removeToken tokens s).
Proof.
  intros Hall. revert s. induction Hall as [|u tokens Hu Hall IH]; intros s Hs; [done|].
  cbn [fold_left]. apply IH. rewrite removeToken_replaceAll by done.
  by apply replaceAll_Forall.
Qed.

Lemma collapse_Forall (inRun : bool) (s : jsstring) :
  Forall Q s -> Forall Q (collapseAux inRun s).
Proof.
  intros Hs. revert inRun. induction Hs as [|c s Hc Hs IH]; intros inRun; [done|].
  cbn [collapseAux]. destruct (isWhiteSpace c); [destruct inRun|]; auto.
Qed.

Lemma dropStartWhile_Forall (p : N -> bool) (s : jsstring) :
  Forall Q s -> Forall Q (dropStartWhile p s).
Proof.
  intros Hs. rewrite (take_drop_while p s) in Hs. by apply Forall_app in Hs as [_ Hs].
Qed.

Lemma dropEndWhile_Forall (p : N -> bool) (s : jsstring) :
  Forall Q s -> Forall Q (dropEndWhile p s).
Proof.
  intros Hs. destruct (dropEndWhile_prefix p s) as (w & Hw & _).
  rewrite Hw in Hs. by apply Forall_app in Hs as [Hs _].
Qed.

End Units.

Section Sorting.
Context {A : Type} (key : A -> nat).

Lemma insertByLength_elem (x y : A) (l : list A) :
  y ∈ insertByLength key x l <-> y = x \/ y ∈ l.
Proof.
  induction l as [|z l IH]; simpl.
  - rewrite elem_of_cons. done.
  - destruct (key z <=? key x)%nat.
    + by rewrite elem_of_cons.
    + rewrite !elem_of_cons, IH. tauto.
Qed.

Lemma sortByLengthDesc_elem (y : A) (l : list A) :
  y ∈ sortByLengthDesc key l <-> y ∈ l.
Proof.
  induction l as [|x l IH]; [done|]. unfold sortByLengthDesc in *. cbn [foldr].
  by rewrite insertByLength_elem, IH, elem_of_cons.
Qed.
End Sorting.

Section Tokens.
Variable cfg : TaskModifierConfig.

Lemma nonEmpty_spec (u : jsstring) : nonEmpty u = true <-> u <> [].
Proof. by destruct u. Qed.

Lemma tokens_elem (u : jsstring) :
  u ∈ getSteuerzeichenTokens cfg <->
  u <> [] /\ Some u ∈ steuerzeichenKandidaten cfg.
Proof.
  unfold getSteuerzeichenTokens. rewrite sortByLengthDesc_elem.
  rewrite list_elem_of_In, filter_In, <- list_elem_of_In, list_elem_of_omap, nonEmpty_spec.
  split.
  - intros [(x & Hx & E) Hne]. simpl in E. subst x. done.
  - intros [Hne Hin]. split; [|done]. by exists (Some u).
Qed.

Lemma tokens_nonempty : Forall (fun u => u <> []) (getSteuerzeichenTokens cfg).
Proof. apply Forall_forall. intros u Hu. by apply tokens_elem in Hu as [Hne _]. Qed.


End Tokens.

Section Spacing.

Lemma collapse_singleSpaced (b : bool) (s : jsstring) :
  singleSpaced b (collapseAux b s) = true.
Proof.
  revert b; induction s as [|c s IH]; intros b; [done|]. cbn [collapseAux].
  destruct (isWhiteSpace c) eqn:Ec.
  - destruct b; [apply IH|]. cbn [singleSpaced]. change (isWhiteSpace SP) with true.
    cbn. apply IH.
  - cbn [singleSpaced]. rewrite Ec. apply IH.
Qed.

Lemma singleSpaced_fix (b : bool) (s : jsstring) :
  singleSpaced b s = true -> collapseAux b s = s.
Proof.
  revert b; induction s as [|c s IH]; intros b; [done|]. cbn [singleSpaced collapseAux].
  destruct (isWhiteSpace c).
  - intros [[Ec Eb]%andb_true_iff E]%andb_true_iff. apply N.eqb_eq in Ec. subst c.
    destruct b; [done|]. f_equal. by apply IH.
  - intros E. f_equal. by apply IH.
Qed.

Lemma singleSpaced_weaken (s : jsstring) :
  singleSpaced true s = true -> singleSpaced false s = true.
Proof.
  destruct s as [|c s]; [done|]. cbn [singleSpaced]. destruct (isWhiteSpace c); [|done].
  intros [[_ Eb]%andb_true_iff _]%andb_true_iff. done.
Qed.

Lemma singleSpaced_app (b : bool) (a r : jsstring) :
  singleSpaced b (a ++ r) = true -> singleSpaced b a = true /\ singleSpaced false r = true.
Proof.
  revert b; induction a as [|c a IH]; intros b.
  - simpl. intros E. split; [done|]. destruct b; [by apply singleSpaced_weaken | done].
  - cbn [app singleSpaced]. destruct (isWhiteSpace c).
    + intros [E1 E2]%andb_true_iff. apply IH in E2 as [E2 E3]. by rewrite E1, E2.
    + apply IH.
Qed.

Lemma trimStart_headOk (s : jsstring) : headOk (trimStart s).
Proof.
  destruct (dropStartWhile_head isWhiteSpace s) as [E | (c & q & E & Hc)];
    unfold trimStart; by rewrite E.
Qed.

Lemma trimStart_fix (s : jsstring) : headOk s -> trimStart s = s.
Proof.
  destruct s as [|c s]; [done|]. unfold headOk, trimStart. cbn [dropStartWhile].
  by intros ->.
Qed.

Lemma trimEnd_headOk (s : jsstring) : headOk s -> headOk (trimEnd s).
Proof.
  destruct s as [|c s]; [done|]. unfold headOk, trimEnd. cbn [dropEndWhile]. intros Hc.
  destruct (dropEndWhile isWhiteSpace s); [by rewrite Hc | done].
Qed.

Lemma take_headOk (n : nat) (s : jsstring) : headOk s -> headOk (take n s).
Proof. destruct s, n; done. Qed.

Lemma trimEnd_singleSpaced (s : jsstring) :
  singleSpaced false s = true -> singleSpaced false (trimEnd s) = true.
Proof.
  intros E. destruct (dropEndWhile_prefix isWhiteSpace s) as (w & Hw & _).
  rewrite Hw in E. by apply singleSpaced_app in E as [E _].
Qed.

Lemma trimStart_singleSpaced (s : jsstring) :
  singleSpaced false s = true -> singleSpaced false (trimStart s) = true.
Proof.
  intros E. rewrite (take_drop_while isWhiteSpace s) in E.
  by apply singleSpaced_app in E as [_ E].
Qed.

Lemma take_singleSpaced (n : nat) (s : jsstring) :
  singleSpaced false s = true -> singleSpaced false (take n s) = true.
Proof.
  intros E. rewrite <- (take_drop n s) in E. by apply singleSpaced_app in E as [E _].
Qed.

Lemma trim_collapse_Tidy (s : jsstring) : Tidy (trim (collapseWhiteSpace s)).
Proof.
  unfold Tidy, trim. split; [|split].
  - apply trimEnd_headOk, trimStart_headOk.
  - apply dropEndWhile_idem.
  - apply trimEnd_singleSpaced, trimStart_singleSpaced, collapse_singleSpaced.
Qed.

Lemma trimEnd_take_Tidy (n : nat) (s : jsstring) : Tidy s -> Tidy (trimEnd (take n s)).
Proof.
  intros (Hh & _ & Hs). split; [|split].
  - by apply trimEnd_headOk, take_headOk.
  - apply dropEndWhile_idem.
  - by apply trimEnd_singleSpaced, take_singleSpaced.
Qed.

Lemma Tidy_trim (s : jsstring) : Tidy s -> trim s = s.
Proof. intros (Hh & He & _). unfold trim. by rewrite trimStart_fix. Qed.

Lemma Tidy_collapse (s : jsstring) : Tidy s -> collapseWhiteSpace s = s.
Proof. intros (_ & _ & Hs). by apply singleSpaced_fix. Qed.

End Spacing.

Section Normalize.
Context `{UnicodeOps}.
Variable cfg : TaskModifierConfig.

Lemma normalizeHinweis_Tidy (s : jsstring) : Tidy (normalizeHinweis cfg s).
Proof.
  unfold normalizeHinweis. cbv zeta. destruct (_ <? _)%nat.
  - apply trimEnd_take_Tidy, trim_collapse_Tidy.
  - apply trim_collapse_Tidy.
Qed.

Lemma normalizeHinweis_length (s : jsstring) : (length (normalizeHinweis cfg s) <= 20)%nat.
Proof.
  unfold normalizeHinweis. cbv zeta. destruct (_ <? _)%nat eqn:E.
  - etrans; [apply dropEndWhile_length|]. unfold slice. rewrite length_take. lia.
  - apply Nat.ltb_ge in E. done.
Qed.

Lemma normalizeHinweis_no_control (s : jsstring) :
  Forall (fun c => isControl c = false) (normalizeHinweis cfg s).
Proof.
  assert (forall x, Forall (fun c => isControl c = false) x ->
            Forall (fun c => isControl c = false) (trim (collapseWhiteSpace x))) as Htc.
  { intros x Hx. unfold trim, trimEnd, trimStart.
    apply dropEndWhile_Forall, dropStartWhile_Forall. by apply collapse_Forall. }
  unfold normalizeHinweis. cbv zeta.
  match goal with |- context [fold_left removeToken ?tk ?z] =>
    assert (Forall (fun c => isControl c = false) (fold_left removeToken tk z)) as Hf end.
  { apply removeTokens_Forall; [done | apply tokens_nonempty |].
    apply Forall_map. apply Forall_true. intros c. simpl. by destruct (isControl c) eqn:E. }
  destruct (_ <? _)%nat.
  - apply dropEndWhile_Forall. unfold slice. rewrite drop_0. apply Forall_take. by apply Htc.
  - by apply Htc.
Qed.

Lemma normalizeHinweis_absent (s t : jsstring) :
  t ∈ getSteuerzeichenTokens cfg -> (SP ∉ t) ->
  includes (normalizeHinweis cfg s) t = false.
Proof.
  intros Hin Hsp. assert (t <> []) as Hne by (by apply tokens_elem in Hin as [? _]).
  unfold normalizeHinweis. cbv zeta.
  match goal with |- context [fold_left removeToken ?tk ?z] =>
    assert (includes (trim (collapseWhiteSpace (fold_left removeToken tk z))) t = false) as Hf end.
  { unfold trim. apply trimEnd_keeps_absent, trimStart_keeps_absent; try done.
    apply collapse_keeps_absent; try done.
    apply removeTokens_absent; try done. apply tokens_nonempty. }
  destruct (_ <? _)%nat; [|done].
  apply trimEnd_keeps_absent. unfold slice. rewrite drop_0. by apply take_keeps_absent.
Qed.


(** A text that has what [normalizeHinweis] leaves, and that NFKC keeps, is
    kept by [normalizeHinweis]. *)
Lemma normalizeHinweis_fixed (o : jsstring) :
  nfkc o = o ->
  Forall (fun c => isControl c = false) o ->
  (forall u, u ∈ getSteuerzeichenTokens cfg -> includes o u = false) ->
  Tidy o -> (length o <= 20)%nat ->
  normalizeHinweis cfg o = o.
Proof.
  intros Hn Hc Ht Htidy Hlen. unfold normalizeHinweis. cbv zeta. rewrite Hn.
  assert (map (fun c => if isControl c then SP else c) o = o) as ->.
  { clear -Hc. induction Hc as [|c o Ec Hc IH]; [done|]. simpl. by rewrite Ec, IH. }
  assert (fold_left removeToken (getSteuerzeichenTokens cfg) o = o) as ->.
  { pose proof (tokens_nonempty cfg) as Hne. revert Ht Hne.
    generalize (getSteuerzeichenTokens cfg). intros tokens.
    induction tokens as [|u tokens IH]; intros Ht Hne; [done|].
    inversion Hne; subst. cbn [fold_left].
    rewrite removeToken_replaceAll by done.
    rewrite replaceAll_absent by (apply Ht, elem_of_cons; by left).
    apply IH; [|done]. intros v Hv. apply Ht, elem_of_cons. by right. }
  rewrite Tidy_collapse, Tidy_trim by done.
  destruct (_ <? _)%nat eqn:E; [|done]. apply Nat.ltb_lt in E. lia.
Qed.

End Normalize.

Section Closure.
Context `{UnicodeOps}.
(** What is used of NFKC: its results are normalized, every part of a
    normalized text is normalized, and so are two normalized texts with a
    space between them. *)
Hypothesis nfkc_normal : forall s, Normal (nfkc s).
Hypothesis normal_part : forall a b c, Normal (a ++ b ++ c) -> Normal b.
Hypothesis normal_space : forall a b, Normal a -> Normal b -> Normal (a ++ [SP] ++ b).

Lemma normal_prefix (a b : jsstring) : Normal (a ++ b) -> Normal a.
Proof. intros Hn. apply (normal_part [] a b). exact Hn. Qed.

Lemma normal_suffix (a b : jsstring) : Normal (a ++ b) -> Normal b.
Proof. intros Hn. apply (normal_part a b []). by rewrite app_nil_r. Qed.

Lemma normal_nil : Normal [].
Proof. apply (normal_part [] [] (nfkc [])). apply nfkc_normal. Qed.

Lemma normal_snoc (p : jsstring) (c : N) (s : jsstring) :
  Normal (p ++ c :: s) -> Normal ((p ++ [c]) ++ s).
Proof. by rewrite <- app_assoc. Qed.

Lemma normal_controls (p s : jsstring) :
  Normal (p ++ s) -> Normal (p ++ map (fun c => if isControl c then SP else c) s).
Proof.
  revert p; induction s as [|c s IH]; intros p Hn; [done|]. cbn [map].
  destruct (isControl c).
  - apply (normal_space p).
    + by apply normal_prefix in Hn.
    + apply (IH []). apply normal_snoc, normal_suffix in Hn. exact Hn.
  - rewrite (cons_middle c), app_assoc. apply IH. by apply normal_snoc.
Qed.

Lemma normal_replaceAll (u s : jsstring) :
  u <> [] -> forall p, Normal (p ++ s) -> Normal (p ++ replaceAll (literal u) [SP] s).
Proof.
  intros Hu.
  apply (replaceAll_literal_ind u [SP]
           (fun s o => forall p, Normal (p ++ s) -> Normal (p ++ o))); [done| | |].
  - done.
  - intros r o IH p Hn. apply (normal_space p).
    + by apply normal_prefix in Hn.
    + apply (IH []). rewrite app_assoc in Hn. by apply normal_suffix in Hn.
  - intros c r o _ IH p Hn. rewrite (cons_middle c), app_assoc. apply IH. by apply normal_snoc.
Qed.

Lemma normal_removeTokens (tokens : list jsstring) (s : jsstring) :
  Forall (fun u => u <> []) tokens -> Normal s -> Normal (fold_left removeToken tokens s).
Proof.
  intros Hall. revert s. induction Hall as [|u tokens Hu Hall IH]; intros s Hn; [done|].
  cbn [fold_left]. apply IH. rewrite removeToken_replaceAll by done.
  exact (normal_replaceAll u s Hu [] Hn).
Qed.

Lemma normal_collapse (s : jsstring) :
  (forall p, Normal (p ++ s) -> Normal (p ++ collapseAux false s))
  /\ (forall p, Normal p -> Normal s -> Normal (p ++ [SP] ++ collapseAux true s)).
Proof.
  induction s as [|c s [IHa IHb]].
  - split; [done|]. intros p Hp _. apply normal_space; [done | apply normal_nil].
  - split.
    + intros p Hn. cbn [collapseAux]. destruct (isWhiteSpace c).
      * apply IHb; [by apply normal_prefix in Hn|].
        apply normal_snoc, normal_suffix in Hn. exact Hn.
      * rewrite (cons_middle c), app_assoc. apply IHa. by apply normal_snoc.
    + intros p Hp Hn. cbn [collapseAux]. destruct (isWhiteSpace c).
      * apply IHb; [done|]. by apply (normal_suffix [c]).
      * replace (p ++ [SP] ++ c :: collapseAux false s)
          with ((p ++ [SP] ++ [c]) ++ collapseAux false s) by (by rewrite <- !app_assoc).
        apply IHa. rewrite <- !app_assoc. by apply normal_space.
Qed.

Lemma normal_trim (s : jsstring) : Normal s -> Normal (trim s).
Proof.
  intros Hn. unfold trim, trimEnd, trimStart.
  destruct (dropEndWhile_prefix isWhiteSpace (dropStartWhile isWhiteSpace s)) as (w & Hw & _).
  rewrite (take_drop_while isWhiteSpace s), Hw in Hn.
  by apply normal_suffix, normal_prefix in Hn.
Qed.

Variable cfg : TaskModifierConfig.

Lemma normalizeHinweis_Normal (s : jsstring) : Normal (normalizeHinweis cfg s).
Proof.
  unfold normalizeHinweis. cbv zeta.
  match goal with |- context [trim ?y] => set (z := trim y) end.
  assert (Normal z) as Hz.
  { apply normal_trim. apply (proj1 (normal_collapse _) []).
    apply normal_removeTokens; [apply tokens_nonempty|].
    apply (normal_controls []). apply nfkc_normal. }
  destruct (_ <? _)%nat; [|done].
  unfold slice, trimEnd. rewrite drop_0. change (20 - 0)%nat with 20%nat.
  destruct (dropEndWhile_prefix isWhiteSpace (take 20 z)) as (w & Hw & _).
  rewrite <- (take_drop 20 z) in Hz. apply normal_prefix in Hz.
  rewrite Hw in Hz. by apply normal_prefix in Hz.
Qed.

(** When no token has a space, normalizing twice is normalizing once. *)
Lemma normalizeHinweis_idem (s : jsstring) :
  Forall (fun u => SP ∉ u) (getSteuerzeichenTokens cfg) ->
  normalizeHinweis cfg (normalizeHinweis cfg s) = normalizeHinweis cfg s.
Proof.
  intros Hsp. apply normalizeHinweis_fixed.
  - apply normalizeHinweis_Normal.
  - apply normalizeHinweis_no_control.
  - intros u Hu. apply normalizeHinweis_absent; [done|].
    rewrite Forall_forall in Hsp. by apply Hsp.
  - apply normalizeHinweis_Tidy.
  - apply normalizeHinweis_length.
Qed.

Lemma update_patch_ext (now : UtcDate) (filePath : jsstring) (index : Z)
    (patch1 patch2 : Patch) (w : World) :
  p_status patch1 = p_status patch2 ->
  (forall current, nextHinweis cfg patch1 current = nextHinweis cfg patch2 current) ->
  updateUnteraufgabeInFile cfg now filePath index patch1 w
  = updateUnteraufgabeInFile cfg now filePath index patch2 w.
Proof.
  intros Hs Hn. unfold updateUnteraufgabeInFile, bind.
  destruct (readTaskFromFile cfg filePath w) as [[e|parsed] w']; [done|].
  destruct (_ || _); [done|]. destruct (_ !! _); [|done]. by rewrite Hs, Hn.
Qed.

End Closure.

Section Idempotence.
Context `{UnicodeOps}.
Hypothesis nfkc_normal : forall s, Normal (nfkc s).
Hypothesis normal_part : forall a b c, Normal (a ++ b ++ c) -> Normal b.
Hypothesis normal_space : forall a b, Normal a -> Normal b -> Normal (a ++ [SP] ++ b).

(** C10: under the default configuration, normalizing a hint twice gives what
    normalizing it once gives, so that an update whose patch carries the
    normalized hint, as the PATCH handler passes it, does what the update
    with the hint itself does.  NFKC is the runtime's; what is used of it is
    stated by the three hypotheses. *)
Theorem normalizeHinweis_idempotent (s : jsstring) :
  normalizeHinweis defaultModifier (normalizeHinweis defaultModifier s)
  = normalizeHinweis defaultModifier s
  /\ forall now filePath index status w,
       updateUnteraufgabeInFile defaultModifier now filePath index
         {| p_status := status; p_hinweis := Some (normalizeHinweis defaultModifier s) |} w
       = updateUnteraufgabeInFile defaultModifier now filePath index
           {| p_status := status; p_hinweis := Some s |} w.
Proof.
  assert (normalizeHinweis defaultModifier (normalizeHinweis defaultModifier s)
          = normalizeHinweis defaultModifier s) as Hidem.
  { apply normalizeHinweis_idem; try done. by_compute. }
  split; [done|]. intros now filePath index status w.
  apply update_patch_ext; [done|]. intros current. unfold nextHinweis. simpl.
  by rewrite Hidem.
Qed.

End Idempotence.

Lemma normalizeHinweis_idempotent_witness :
  normalizeHinweis (H := asciiUnicode) defaultModifier
    (normalizeHinweis (H := asciiUnicode) defaultModifier (str "  a * b  "))
  = normalizeHinweis (H := asciiUnicode) defaultModifier (str "  a * b  ").
Proof.
  apply (proj1 (@normalizeHinweis_idempotent asciiUnicode
                  (fun s => eq_refl) (fun a b c _ => eq_refl) (fun a b _ _ => eq_refl)
                  (str "  a * b  "))).
Defined.




(** ** Patterns of two code units *)

Section Pairs.
(** Occurrences of a pattern of two code units. *)
Variables x y : N.

Lemma includes_pair_nil : includes [] [x; y] = false.
Proof. done. Qed.

Lemma includes_pair_single (a : N) : includes [a] [x; y] = false.
Proof. rewrite includes_cons. simpl. by rewrite andb_false_r. Qed.


Lemma includes_pair_cons_head (a b : N) (s : jsstring) :
  b <> y -> includes (a :: b :: s) [x; y] = includes (b :: s) [x; y].
Proof.
  intros Hne. rewrite includes_cons. simpl.
  apply not_eq_sym in Hne. apply N.eqb_neq in Hne. rewrite Hne.
  by rewrite andb_false_r.
Qed.




End Pairs.

(** ** Trimmed lines and their joins *)

Section Trimming.

Lemma dropEndWhile_app (p : N -> bool) (a b : jsstring) :
  dropEndWhile p b <> [] -> dropEndWhile p (a ++ b) = a ++ dropEndWhile p b.
Proof.
  intros Hb. induction a as [|c a IH]; [done|]. cbn [app dropEndWhile]. rewrite IH.
  destruct (a ++ dropEndWhile p b) eqn:E; [|done].
  apply app_eq_nil in E as [_ E]. done.
Qed.

Lemma dropStartWhile_app (p : N -> bool) (a b : jsstring) :
  Forall (fun c => p c = true) a -> dropStartWhile p (a ++ b) = dropStartWhile p b.
Proof. intros Ha. induction Ha as [|c a Hc Ha IH]; [done|]. simpl. by rewrite Hc. Qed.

Lemma trimEnd_cons_inv (c : N) (l : jsstring) :
  trimEnd (c :: l) = c :: l -> l <> [] -> trimEnd l = l.
Proof.
  unfold trimEnd. cbn [dropEndWhile]. intros E Hne.
  destruct (dropEndWhile isWhiteSpace l) as [|d r] eqn:Er.
  - destruct (isWhiteSpace c); [done|]. injection E as <-. done.
  - by injection E as <-.
Qed.

Lemma trimEnd_last (l : jsstring) (c : N) :
  trimEnd l = l -> last l = Some c -> isWhiteSpace c = false.
Proof.
  induction l as [|d l IH]; [done|]. intros E Hl. destruct l as [|e l].
  - simpl in Hl. injection Hl as ->. unfold trimEnd in E. simpl in E.
    destruct (isWhiteSpace c); [done|done].
  - rewrite last_cons_cons in Hl. apply IH; [|done]. by apply trimEnd_cons_inv in E.
Qed.










Lemma trim_fix (s : jsstring) : headOk s -> trimEnd s = s -> trim s = s.
Proof. intros Hh Ht. unfold trim. by rewrite trimStart_fix. Qed.


End Trimming.

(** ** Encoding and decoding the description *)

Section RoundTrip.
Context `{UnicodeOps}.


Lemma headOk_app (a b : jsstring) : a <> [] -> headOk a -> headOk (a ++ b).
Proof. by destruct a. Qed.

















End RoundTrip.


(** Two more lists that do not come back: a title that holds the hint
    separator is read as a title and a hint, and a title with blanks around
    it comes back trimmed. *)
Example roundtrip_title_with_separator :
  map tupleOfParsed
    (parseUnteraufgaben (H := asciiUnicode) defaultModifier
       (buildDescriptionValue defaultModifier Sample.titleWithSeparator))
  = [(false, true, str "Fenster", Some (str "gross"))].
Proof. vm_compute. reflexivity. Qed.

Example roundtrip_title_with_blanks :
  map tupleOfParsed
    (parseUnteraufgaben (H := asciiUnicode) defaultModifier
       (buildDescriptionValue defaultModifier Sample.titleWithBlanks))
  = [(true, false, str "Fenster", None)].
Proof. vm_compute. reflexivity. Qed.


(** * The lookups, the codec and the endpoints *)

(** ** The indexes of the reference data *)

Section Indexes.
Import StammDaten.
Context `{UnicodeOps}.

(** A map that is filled from a list holds, under a key, the last element
    of the list with that key. *)
Lemma index_lookup {K A} `{Countable K} (key : A -> K) (l : list A) (m : gmap K A) (k : K) :
  fold_left (fun m x => <[key x := x]> m) l m !! k
  = match last (filter (fun x => key x = k) l) with
    | Some x => Some x
    | None => m !! k
    end.
Proof.
  revert m; induction l as [|x l IH]; intros m; [done|].
  cbn [fold_left]. rewrite IH, filter_cons.
  destruct (decide (key x = k)) as [<-|Hne].
  - rewrite last_cons. destruct (last _); [done|]. by rewrite lookup_insert_eq.
  - destruct (last _); [done|]. by rewrite lookup_insert_ne.
Qed.

Lemma index_lookup_empty {K A} `{Countable K} (key : A -> K) (l : list A) (k : K) :
  fold_left (fun m x => <[key x := x]> m) l (∅ : gmap K A) !! k
  = last (filter (fun x => key x = k) l).
Proof. rewrite index_lookup, lookup_empty. by destruct (last _). Qed.

Lemma last_filter_elem {A} (P : A -> Prop) `{forall x, Decision (P x)} (l : list A) (x : A) :
  last (filter P l) = Some x -> x ∈ l /\ P x.
Proof.
  intros E. apply last_Some_elem_of in E. by apply list_elem_of_filter in E as [? ?].
Qed.

Lemma uintToString_inj (d d' : Decimal.uint) :
  uintToString d = uintToString d' -> d = d'.
Proof.
  revert d'; induction d; intros []; simpl; intros E; try discriminate; try done;
    f_equal; apply IHd; congruence.
Qed.

Lemma uintToString_digits (d : Decimal.uint) : Forall (fun c => isDigit c = true) (uintToString d).
Proof. induction d; simpl; constructor; done. Qed.

Lemma numberToString_units (z : Z) :
  Forall (fun c => isDigit c = true \/ c = HYPHEN) (numberToString z).
Proof.
  unfold numberToString. destruct (Z.to_int z) as [d|d].
  - eapply Forall_impl; [apply uintToString_digits|]. intros; by left.
  - constructor; [by right|]. eapply Forall_impl; [apply uintToString_digits|]. intros; by left.
Qed.

Lemma numberToString_no_colon (z : Z) : COLON ∉ numberToString z.
Proof.
  intros Hin. pose proof (numberToString_units z) as HF.
  rewrite Forall_forall in HF. destruct (HF _ Hin) as [E|E]; done.
Qed.

Lemma numberToString_inj (a b : Z) : numberToString a = numberToString b -> a = b.
Proof.
  unfold numberToString. intros E. apply DecimalZ.to_int_inj.
  destruct (Z.to_int a) as [d|d], (Z.to_int b) as [d'|d'].
  - f_equal. by apply uintToString_inj.
  - exfalso. pose proof (uintToString_digits d) as HF. rewrite E in HF.
    by apply Forall_cons in HF as [? _].
  - exfalso. pose proof (uintToString_digits d') as HF. rewrite <- E in HF.
    by apply Forall_cons in HF as [? _].
  - f_equal. apply uintToString_inj. congruence.
Qed.

(** The composed key tells the two numbers. *)
Lemma bereichKey_inj (k k' : BereichKey) :
  bereichKey k = bereichKey k' -> typId k = typId k' /\ bereichId k = bereichId k'.
Proof.
  unfold bereichKey. cbn [app]. intros E.
  pose proof (first_occurrence_unique _ _ _ _ _ E
                (numberToString_no_colon _) (numberToString_no_colon _)) as E1.
  rewrite E1 in E. apply app_inv_head in E. injection E as E2.
  split; by apply numberToString_inj.
Qed.

Lemma bereichByKey_lookup (stammdaten : StammdatenBereich) (typId bereichId : Z) :
  bereichByKey (rebuildIndexes stammdaten)
    !! bereichKey {| StammDaten.typId := typId; StammDaten.bereichId := bereichId |}
  = last (filter (fun bereich => bereich_Typ_ID bereich = typId /\ bereich_ID bereich = bereichId)
            (Bereich stammdaten)).
Proof.
  unfold rebuildIndexes. cbn [bereichByKey].
  rewrite (index_lookup
             (fun bereich =>
                bereichKey {| StammDaten.typId := bereich_Typ_ID bereich;
                              StammDaten.bereichId := bereich_ID bereich |})).
  rewrite lookup_empty.
  set (k := bereichKey _).
  assert (E : filter (fun x => bereichKey {| StammDaten.typId := bereich_Typ_ID x;
                              StammDaten.bereichId := bereich_ID x |} = k) (Bereich stammdaten)
              = filter (fun bereich => bereich_Typ_ID bereich = typId /\ bereich_ID bereich = bereichId)
                  (Bereich stammdaten)).
  { apply list_filter_iff. intros b. split.
    - intros E. by apply bereichKey_inj in E.
    - intros [<- <-]. done. }
  rewrite E. by destruct (last _).
Qed.

(** X1: after the indexes are rebuilt, an area looked up by category and
    number is the last area of the data with that category and that number,
    and there is none when the data has no such area. *)
Theorem getBereichById_rebuild (stammdaten : StammdatenBereich) (typId bereichId : Z) :
  getBereichById (rebuildIndexes stammdaten) typId bereichId
  = last (filter (fun bereich => bereich_Typ_ID bereich = typId /\ bereich_ID bereich = bereichId)
            (Bereich stammdaten)).
Proof. apply bereichByKey_lookup. Qed.

Lemma getHausById_rebuild (stammdaten : StammdatenBereich) (hausId : Z) :
  getHausById (rebuildIndexes stammdaten) hausId
  = last (filter (fun haus => haus_ID haus = hausId) (Haus stammdaten)).
Proof. unfold getHausById, rebuildIndexes. cbn [hausById]. apply index_lookup_empty. Qed.

(** X2: an area looked up by the name of its category and its number is the
    area with that number in the last category of the data whose name,
    trimmed and in lower case, is the trimmed lower case form of the name
    given; there is none when no category has that name. *)
Theorem getBereichByTypNameUndId_rebuild (stammdaten : StammdatenBereich)
    (typName : jsstring) (bereichId : Z) :
  getBereichByTypNameUndId (rebuildIndexes stammdaten) typName bereichId
  = typ ← last (filter (fun typ => normalizeTypName (typ_Name typ) = normalizeTypName typName)
                  (Typ stammdaten));
    last (filter (fun bereich =>
                    bereich_Typ_ID bereich = typ_ID typ /\ bereich_ID bereich = bereichId)
            (Bereich stammdaten)).
Proof.
  unfold getBereichByTypNameUndId.
  change (typByName (rebuildIndexes stammdaten))
    with (fold_left (fun m typ => <[normalizeTypName (typ_Name typ) := typ]> m)
            (Typ stammdaten) (∅ : gmap jsstring TypDatensatz)).
  rewrite (index_lookup_empty (fun typ => normalizeTypName (typ_Name typ))).
  destruct (last _) as [typ|]; [|done]. cbn [mbind option_bind].
  apply bereichByKey_lookup.
Qed.

(** X3: the tenants of a resolved area are, in the order of the tenant ids of
    the area, the persons of the data with those ids, the last one where an
    id is given to several persons; an id that no person has is dropped. *)
Theorem mieter_rebuild (stammdaten : StammdatenBereich) (bereich : BereichDatensatz) :
  mieter (resolveBereich (rebuildIndexes stammdaten) bereich)
  = omap (fun personId =>
            last (filter (fun person => person_ID person = personId) (Person stammdaten)))
      (bereich_Person_ID bereich).
Proof.
  unfold resolveBereich. cbn [mieter].
  apply list_omap_ext. apply Forall2_same_length_lookup. split; [done|].
  intros i x y Hx Hy. assert (x = y) as <- by congruence.
  unfold rebuildIndexes. cbn [personById]. apply index_lookup_empty.
Qed.

(** X4: a building that is resolved has the id asked for and is in the data;
    its areas are the areas of the data with that building id, in their
    order, and each of them resolves back to this building. *)
Theorem getHausMitRelationen_consistent (stammdaten : StammdatenBereich) (hausId : Z)
    (result : HausMitRelationen) :
  getHausMitRelationen (rebuildIndexes stammdaten) hausId = Some result ->
  haus_ID (hmr_haus result) = hausId
  /\ hmr_haus result ∈ Haus stammdaten
  /\ map bmr_bereich (bereiche result)
     = filter (fun bereich => bereich_Haus_ID bereich = hausId) (Bereich stammdaten)
  /\ Forall (fun resolved => bmr_haus resolved = Some (hmr_haus result)) (bereiche result).
Proof.
  unfold getHausMitRelationen. destruct (getHausById _ hausId) as [haus|] eqn:Hhaus; [|done].
  intros [= <-]. cbn [hmr_haus bereiche].
  pose proof Hhaus as Hlast. rewrite getHausById_rebuild in Hlast.
  apply last_filter_elem in Hlast as [Hin Hid].
  split; [done|]. split; [done|].
  unfold getBereicheByHausId. cbn [data rebuildIndexes].
  split.
  - rewrite map_map. cbn [resolveBereich bmr_bereich]. rewrite map_id.
    induction (Bereich stammdaten) as [|b l IH]; [done|].
    cbn [List.filter]. rewrite filter_cons.
    destruct (Z.eqb_spec (bereich_Haus_ID b) hausId) as [E|E].
    + rewrite decide_True by done. by f_equal.
    + by rewrite decide_False.
  - apply Forall_map. apply Forall_forall. intros b Hb.
    apply list_elem_of_In, filter_In in Hb as [_ Hb]. apply Z.eqb_eq in Hb.
    cbn [resolveBereich bmr_haus]. rewrite Hb. exact Hhaus.
Qed.

Lemma getBereichById_own (stammdaten : StammdatenBereich) (typId bereichId : Z)
    (bereich : BereichDatensatz) :
  getBereichById (rebuildIndexes stammdaten) typId bereichId = Some bereich ->
  bereich ∈ Bereich stammdaten /\ bereich_Typ_ID bereich = typId /\ bereich_ID bereich = bereichId.
Proof.
  unfold getBereichById, getBereichByKey. rewrite bereichByKey_lookup. intros E. by apply last_filter_elem in E as [? [? ?]].
Qed.

(** X5: the area that a label resolves to is an area of the data, and looking
    it up with its relations by its own category and number gives this area
    resolved. *)
Theorem getBereichByBezeichnung_resolves (stammdaten : StammdatenBereich)
    (bezeichnung : jsstring) (bereich : BereichDatensatz) :
  getBereichByBezeichnung (rebuildIndexes stammdaten) bezeichnung = Some bereich ->
  bereich ∈ Bereich stammdaten
  /\ getBereichMitRelationen (rebuildIndexes stammdaten)
       (bereich_Typ_ID bereich) (bereich_ID bereich)
     = Some (resolveBereich (rebuildIndexes stammdaten) bereich).
Proof.
  unfold getBereichByBezeichnung.
  destruct (matchBezeichnung _) as [[typName digits]|]; [|done].
  unfold getBereichByTypNameUndId.
  destruct (typByName _ !! _) as [typ|]; [|done].
  intros Hfound.
  change (getBereichById (rebuildIndexes stammdaten) (typ_ID typ) (digitsToZ digits) = Some bereich)
    in Hfound.
  pose proof (getBereichById_own _ _ _ _ Hfound) as (Hin & Htyp & Hid).
  split; [done|].
  unfold getBereichMitRelationen, getBereichMitRelationenByKey.
  change (getBereichByKey (rebuildIndexes stammdaten)
            {| typId := bereich_Typ_ID bereich; bereichId := bereich_ID bereich |})
    with (getBereichById (rebuildIndexes stammdaten) (bereich_Typ_ID bereich) (bereich_ID bereich)).
  rewrite Htyp, Hid, Hfound. done.
Qed.

(** X29: an area that is listed for a person is an area of the data that has
    the id of the person among its tenant ids, and when a person has that
    id, the person is among the tenants of the area resolved. *)
Theorem getBereicheByPersonId_tenants (repo : Repository) (personId : Z)
    (bereich : BereichDatensatz) :
  bereich ∈ getBereicheByPersonId repo personId ->
  bereich ∈ Bereich (data repo)
  /\ personId ∈ bereich_Person_ID bereich
  /\ forall person,
       personById repo !! personId = Some person ->
       person ∈ mieter (resolveBereich repo bereich).
Proof.
  unfold getBereicheByPersonId. intros Hin.
  apply list_elem_of_In, filter_In in Hin as [Hin Hhas].
  apply existsb_exists in Hhas as (id & Hid & E). apply Z.eqb_eq in E as ->.
  split; [by apply list_elem_of_In|]. split; [by apply list_elem_of_In|].
  intros person Hperson. unfold resolveBereich. cbn [mieter].
  apply list_elem_of_omap. exists personId. split; [by apply list_elem_of_In|done].
Qed.

End Indexes.

Lemma getHausMitRelationen_consistent_witness :
  exists result,
    StammDaten.getHausMitRelationen
      (StammDaten.rebuildIndexes (H := asciiUnicode) Sample.stammdaten) 1 = Some result
    /\ StammDaten.haus_ID (StammDaten.hmr_haus result) = 1%Z
    /\ StammDaten.hmr_haus result ∈ StammDaten.Haus Sample.stammdaten
    /\ map StammDaten.bmr_bereich (StammDaten.bereiche result)
       = filter (fun bereich => StammDaten.bereich_Haus_ID bereich = 1%Z)
           (StammDaten.Bereich Sample.stammdaten)
    /\ Forall (fun resolved =>
                 StammDaten.bmr_haus resolved = Some (StammDaten.hmr_haus result))
         (StammDaten.bereiche result).
Proof.
  eexists. split; [vm_compute; reflexivity|].
  apply (@getHausMitRelationen_consistent asciiUnicode Sample.stammdaten 1).
  vm_compute. reflexivity.
Defined.

Lemma getBereichByBezeichnung_resolves_witness :
  Sample.keller3 ∈ StammDaten.Bereich Sample.stammdaten
  /\ StammDaten.getBereichMitRelationen
       (StammDaten.rebuildIndexes (H := asciiUnicode) Sample.stammdaten) 2 3
     = Some (StammDaten.resolveBereich
               (StammDaten.rebuildIndexes (H := asciiUnicode) Sample.stammdaten)
               Sample.keller3).
Proof.
  apply (@getBereichByBezeichnung_resolves asciiUnicode Sample.stammdaten (str "Keller 3")).
  vm_compute. reflexivity.
Defined.

Lemma getBereicheByPersonId_tenants_witness :
  Sample.keller3 ∈ StammDaten.Bereich Sample.stammdaten
  /\ 7%Z ∈ StammDaten.bereich_Person_ID Sample.keller3
  /\ forall person,
       StammDaten.personById
         (StammDaten.rebuildIndexes (H := asciiUnicode) Sample.stammdaten) !! 7%Z
       = Some person ->
       person ∈ StammDaten.mieter
                  (StammDaten.resolveBereich
                     (StammDaten.rebuildIndexes (H := asciiUnicode) Sample.stammdaten)
                     Sample.keller3).
Proof.
  apply (getBereicheByPersonId_tenants
           (StammDaten.rebuildIndexes (H := asciiUnicode) Sample.stammdaten) 7 Sample.keller3).
  apply list_elem_of_In. vm_compute. left. reflexivity.
Defined.

(** ** The form of a label *)

Section LabelForm.
Import StammDaten.
Context `{UnicodeOps}.

Lemma dropEndWhile_none (p : N -> bool) (s : jsstring) :
  Forall (fun c => p c = false) s -> dropEndWhile p s = s.
Proof.
  induction 1 as [|c s Hc _ IH]; [done|]. cbn [dropEndWhile]. rewrite IH, Hc. by destruct s.
Qed.

Lemma dropEndWhile_all (p : N -> bool) (s : jsstring) :
  Forall (fun c => p c = true) s -> dropEndWhile p s = [].
Proof. induction 1 as [|c s Hc _ IH]; [done|]. cbn [dropEndWhile]. by rewrite IH, Hc. Qed.

Lemma dropEndWhile_app_all (p : N -> bool) (a w : jsstring) :
  Forall (fun c => p c = true) w -> dropEndWhile p (a ++ w) = dropEndWhile p a.
Proof.
  intros Hw. induction a as [|c a IH]; cbn [app dropEndWhile].
  - by apply dropEndWhile_all.
  - by rewrite IH.
Qed.

Lemma dropEndWhile_snoc (p : N -> bool) (a : jsstring) (c : N) :
  p c = false -> dropEndWhile p (a ++ [c]) = a ++ [c].
Proof.
  intros Hc. induction a as [|x a IH]; cbn [app dropEndWhile].
  - by rewrite Hc.
  - rewrite IH. by destruct a.
Qed.

Lemma dropEndWhile_app_none (p : N -> bool) (a b : jsstring) :
  b <> [] -> Forall (fun c => p c = false) b -> dropEndWhile p (a ++ b) = a ++ b.
Proof.
  intros Hb Hall. rewrite dropEndWhile_app; rewrite dropEndWhile_none; done.
Qed.

Lemma singleSpaced_cut (b : bool) (a r : jsstring) (c : N) :
  isWhiteSpace c = false ->
  singleSpaced b (a ++ c :: r) = singleSpaced b a && singleSpaced false r.
Proof.
  intros Hc. revert b; induction a as [|x a IH]; intros b; cbn [app singleSpaced].
  - by rewrite Hc.
  - destruct (isWhiteSpace x); rewrite IH; [|done]. by rewrite !andb_assoc.
Qed.

Lemma singleSpaced_line_units (b : bool) (s : jsstring) :
  singleSpaced b s = true -> forallb (fun d => negb (isLineTerminator d)) s = true.
Proof.
  revert b; induction s as [|c s IH]; intros b; [done|]. cbn [singleSpaced forallb].
  destruct (isWhiteSpace c) eqn:Hc.
  - intros [[Hsp _]%andb_prop Hs]%andb_prop. apply N.eqb_eq in Hsp as ->.
    rewrite (IH _ Hs). done.
  - intros Hs. rewrite (IH _ Hs), andb_true_r.
    unfold isLineTerminator. unfold isWhiteSpace in Hc.
    destruct (c =? 10) eqn:E1; [apply N.eqb_eq in E1 as ->; done|].
    destruct (c =? 13) eqn:E2; [apply N.eqb_eq in E2 as ->; done|].
    destruct (c =? 0x2028) eqn:E3; [apply N.eqb_eq in E3 as ->; done|].
    destruct (c =? 0x2029) eqn:E4; [apply N.eqb_eq in E4 as ->; done|].
    done.
Qed.

Lemma isDigit_not_space (c : N) : isDigit c = true -> isWhiteSpace c = false.
Proof.
  unfold isDigit, isWhiteSpace. intros [H1 H2]%andb_prop.
  apply N.leb_le in H1, H2.
  repeat (apply orb_false_intro);
    try (apply andb_false_iff; (left; apply N.leb_gt; lia) || (right; apply N.leb_gt; lia));
    apply N.eqb_neq; lia.
Qed.

Lemma isDigit_not_closing (c : N) : isDigit c = true -> isClosingPunctuation c = false.
Proof.
  unfold isDigit, isClosingPunctuation. intros [H1 H2]%andb_prop.
  apply N.leb_le in H1, H2.
  repeat (apply orb_false_intro); apply N.eqb_neq; lia.
Qed.

Lemma includes_single (s : jsstring) (c : N) : includes s [c] = true <-> c ∈ s.
Proof.
  unfold includes, indexOf.
  destruct (indexOfFrom_single 0 s c) as [[Hno ->] | (l & v & -> & Hnot & ->)].
  - split; [done|]. intros; done.
  - split; [|intros _; apply Z.leb_le; lia].
    intros _. apply elem_of_app. right. apply elem_of_cons. by left.
Qed.

(** The piece behind the last separator. *)
Lemma last_splitAux (c : N) (cur a r d : jsstring) :
  (c ∉ r) -> List.last (splitAux (literal [c]) 0 cur (a ++ c :: r)) d = r.
Proof.
  intros Hr. revert cur; induction a as [|x a IH]; intros cur.
  - cbn [app]. rewrite splitAux_sep.
    rewrite <- (app_nil_r r) at 1. rewrite splitAux_app_free by done. done.
  - cbn [app]. destruct (decide (x = c)) as [->|Hx].
    + rewrite splitAux_sep.
      pose proof (splitAux_nonempty (literal [c]) 0 [] (a ++ c :: r)) as Hne.
      specialize (IH []). destruct (splitAux _ _ _ _) eqn:E; [done|]. exact IH.
    + change (x :: a ++ c :: r) with ([x] ++ (a ++ c :: r)).
      rewrite splitAux_app_free; [apply IH|].
      intros Hin. apply list_elem_of_singleton in Hin. done.
Qed.

Lemma matchBezeichnung_form (typName digits : jsstring) :
  singleSpaced false typName = true ->
  digits <> [] -> Forall (fun c => isDigit c = true) digits ->
  matchBezeichnung (typName ++ [SP] ++ digits) = Some (typName, digits).
Proof.
  intros Hss Hd Hall. unfold matchBezeichnung, takeEndWhile.
  assert (E : dropEndWhile isDigit (typName ++ [SP] ++ digits) = typName ++ [SP]).
  { rewrite app_assoc, dropEndWhile_app_all by done. by apply dropEndWhile_snoc. }
  rewrite E. rewrite app_assoc, drop_app_length.
  destruct digits as [|d ds]; [done|]. cbn [nonEmpty].
  rewrite rev_app_distr. cbn [rev app greedyPrefix].
  change (isWhiteSpace SP) with true. cbn iota.
  rewrite <- (rev_involutive typName) in Hss.
  assert (Hl : forallb (fun d => negb (isLineTerminator d)) (rev typName) = true).
  { apply forallb_forall. intros x Hx. apply in_rev in Hx.
    pose proof (singleSpaced_line_units _ _ Hss) as Hf.
    rewrite rev_involutive in Hf.
    rewrite forallb_forall in Hf. by apply Hf. }
  rewrite Hl. by rewrite rev_involutive.
Qed.

Lemma singleSpaced_digits (b : bool) (digits : jsstring) :
  Forall (fun c => isDigit c = true) digits -> singleSpaced b digits = true.
Proof.
  intros Hall. revert b; induction Hall as [|c s Hc _ IH]; intros b; [done|].
  cbn [singleSpaced]. rewrite (isDigit_not_space _ Hc). apply IH.
Qed.

Lemma singleSpaced_name_number (b : bool) (typName digits : jsstring) :
  singleSpaced b typName = true -> typName <> [] -> trimEnd typName = typName ->
  Forall (fun c => isDigit c = true) digits ->
  singleSpaced b (typName ++ [SP] ++ digits) = true.
Proof.
  intros Hss Hne Hend Hall.
  destruct (exists_last Hne) as (t & c & ->).
  assert (Hc : isWhiteSpace c = false).
  { apply (trimEnd_last _ _ Hend). by rewrite last_snoc. }
  rewrite <- app_assoc. cbn [app]. rewrite singleSpaced_cut by done.
  rewrite singleSpaced_cut in Hss by done. apply andb_prop in Hss as [-> _].
  cbn [andb singleSpaced]. change (isWhiteSpace SP) with true. cbn iota.
  change (SP =? SP) with true. cbn [andb negb]. by apply singleSpaced_digits.
Qed.

Lemma name_number_fixed (typName digits : jsstring) :
  Tidy typName -> typName <> [] ->
  digits <> [] -> Forall (fun c => isDigit c = true) digits ->
  dropEndWhile isClosingPunctuation
    (collapseWhiteSpace (trim (typName ++ [SP] ++ digits)))
  = typName ++ [SP] ++ digits.
Proof.
  intros (Hhead & Hend & Hss) Hne Hd Hall.
  assert (Hws : Forall (fun c => isWhiteSpace c = false) digits).
  { eapply Forall_impl; [exact Hall|]. apply isDigit_not_space. }
  assert (Hcp : Forall (fun c => isClosingPunctuation c = false) digits).
  { eapply Forall_impl; [exact Hall|]. apply isDigit_not_closing. }
  rewrite trim_fix.
  - unfold collapseWhiteSpace. rewrite singleSpaced_fix
      by (by apply singleSpaced_name_number).
    rewrite app_assoc. by apply dropEndWhile_app_none.
  - by apply headOk_app.
  - unfold trimEnd. rewrite app_assoc. by apply dropEndWhile_app_none.
Qed.

Lemma singleSpaced_head (s : jsstring) :
  headOk s -> singleSpaced true s = singleSpaced false s.
Proof. destruct s as [|c s]; [done|]. cbn [headOk singleSpaced]. by intros ->. Qed.

Lemma isDigit_not_hyphen (digits : jsstring) :
  Forall (fun c => isDigit c = true) digits -> HYPHEN ∉ digits.
Proof.
  intros Hall Hin. rewrite Forall_forall in Hall. by specialize (Hall _ Hin).
Qed.

Lemma trim_gap (gap s : jsstring) :
  gap = [] \/ gap = [SP] -> headOk s -> trimEnd s = s -> trim (gap ++ s) = s.
Proof.
  intros [-> | ->] Hhead Hend; cbn [app].
  - by apply trim_fix.
  - unfold trim. change (trimStart (SP :: s)) with (trimStart s).
    by rewrite trimStart_fix.
Qed.

(** X6: a label made of a category name, a space and a number of at most
    fifteen digits (which the source reads exactly) resolves to what the
    name and the number resolve to, when the name is not empty, has no
    hyphen and is as [trim] and the collapsing of white space leave it; and
    so does the label with any text and a hyphen, with or without a space
    behind it, in front, when that text does not start with white space
    and has single spaces only. *)
Theorem getBereichByBezeichnung_label (repo : Repository) (typName digits : jsstring) :
  Tidy typName -> typName <> [] -> (HYPHEN ∉ typName) ->
  digits <> [] -> Forall (fun c => isDigit c = true) digits -> (length digits <= 15)%nat ->
  getBereichByBezeichnung repo (typName ++ [SP] ++ digits)
  = getBereichByTypNameUndId repo typName (digitsToZ digits)
  /\ forall prefix gap : jsstring,
       headOk (prefix ++ [HYPHEN]) -> singleSpaced false prefix = true ->
       gap = [] \/ gap = [SP] ->
       getBereichByBezeichnung repo (prefix ++ [HYPHEN] ++ gap ++ typName ++ [SP] ++ digits)
       = getBereichByTypNameUndId repo typName (digitsToZ digits).
Proof.
  intros HT Hne Hhy Hd Hall _.
  pose proof HT as (Hhead & Hend & Hss).
  assert (Hws : Forall (fun c => isWhiteSpace c = false) digits).
  { eapply Forall_impl; [exact Hall|]. apply isDigit_not_space. }
  assert (Hcp : Forall (fun c => isClosingPunctuation c = false) digits).
  { eapply Forall_impl; [exact Hall|]. apply isDigit_not_closing. }
  assert (Hfree : HYPHEN ∉ typName ++ [SP] ++ digits).
  { intros [Hin|[Hin|Hin]%elem_of_app]%elem_of_app; [done| |].
    - by apply list_elem_of_singleton in Hin.
    - by apply isDigit_not_hyphen in Hin. }
  assert (Hheadl : headOk (typName ++ [SP] ++ digits)) by (by apply headOk_app).
  assert (Hendl : trimEnd (typName ++ [SP] ++ digits) = typName ++ [SP] ++ digits).
  { unfold trimEnd. rewrite app_assoc. by apply dropEndWhile_app_none. }
  split.
  - unfold getBereichByBezeichnung. rewrite name_number_fixed by done.
    destruct (includes _ [HYPHEN]) eqn:Hinc.
    { apply includes_single in Hinc. done. }
    by rewrite matchBezeichnung_form.
  - intros prefix gap Hph Hps Hgap.
    set (tail := gap ++ typName ++ [SP] ++ digits).
    assert (Htail : HYPHEN ∉ tail).
    { unfold tail. intros [Hin|Hin]%elem_of_app; [|done].
      destruct Hgap as [-> | ->]; [by apply elem_of_nil in Hin|].
      by apply list_elem_of_singleton in Hin. }
    assert (Hfix : dropEndWhile isClosingPunctuation
                     (collapseWhiteSpace (trim (prefix ++ [HYPHEN] ++ tail)))
                   = prefix ++ [HYPHEN] ++ tail).
    { assert (E : prefix ++ [HYPHEN] ++ tail
                  = (prefix ++ [HYPHEN] ++ gap ++ typName ++ [SP]) ++ digits).
      { unfold tail. by rewrite <- !app_assoc. }
      rewrite trim_fix.
      - unfold collapseWhiteSpace. rewrite singleSpaced_fix.
        + rewrite E. by apply dropEndWhile_app_none.
        + cbn [app]. rewrite singleSpaced_cut by done. rewrite Hps. cbn [andb].
          unfold tail. destruct Hgap as [-> | ->]; cbn [app].
          * by apply singleSpaced_name_number.
          * cbn [singleSpaced]. change (isWhiteSpace SP) with true. cbn iota.
            change (SP =? SP) with true. cbn [andb negb].
            rewrite singleSpaced_head by done. by apply singleSpaced_name_number.
      - rewrite app_assoc. apply headOk_app; [|done]. by destruct prefix.
      - unfold trimEnd. rewrite E. by apply dropEndWhile_app_none. }
    unfold getBereichByBezeichnung. fold tail. rewrite Hfix.
    assert (Hinc : includes (prefix ++ [HYPHEN] ++ tail) [HYPHEN] = true).
    { apply includes_single. apply elem_of_app. right. apply elem_of_cons. by left. }
    rewrite Hinc. unfold lastPiece, split, splitBy. cbn [app].
    rewrite last_splitAux by done.
    unfold tail. rewrite trim_gap by done.
    by rewrite matchBezeichnung_form.
Qed.

(** X7: a label without a digit resolves to nothing. *)
Theorem getBereichByBezeichnung_no_digit (repo : Repository) (bezeichnung : jsstring) :
  Forall (fun c => isDigit c = false) bezeichnung ->
  getBereichByBezeichnung repo bezeichnung = None.
Proof.
  intros Hall. unfold getBereichByBezeichnung.
  set (normalized := dropEndWhile _ _).
  assert (Hn : Forall (fun c => isDigit c = false) normalized).
  { unfold normalized, collapseWhiteSpace, trim, trimEnd, trimStart.
    apply dropEndWhile_Forall, collapse_Forall; [done|].
    by apply dropEndWhile_Forall, dropStartWhile_Forall. }
  set (segment := if includes normalized [HYPHEN] then _ else _).
  assert (Hs : Forall (fun c => isDigit c = false) segment).
  { unfold segment. destruct (includes _ _); [|done].
    unfold trim, trimEnd, trimStart.
    apply dropEndWhile_Forall, dropStartWhile_Forall.
    unfold lastPiece, split, splitBy.
    assert (Hpieces : forall cur s k,
               Forall (fun c => isDigit c = false) cur -> Forall (fun c => isDigit c = false) s ->
               Forall (Forall (fun c => isDigit c = false)) (splitAux (literal [HYPHEN]) k cur s)).
    { intros cur s; revert cur; induction s as [|c s IH]; intros cur k Hcur Hs'.
      - by constructor.
      - inversion Hs' as [|? ? Hc Hs'']; subst. cbn [splitAux]. destruct k as [|k].
        + destruct (literal [HYPHEN] (c :: s)) as [[|n]|].
          * apply IH; [|done]. apply Forall_app. split; [done|]. by constructor.
          * constructor; [done|]. by apply IH.
          * apply IH; [|done]. apply Forall_app. split; [done|]. by constructor.
        + by apply IH. }
    specialize (Hpieces [] normalized 0%nat (Forall_nil_2 _) Hn).
    revert Hpieces. generalize (splitAux (literal [HYPHEN]) 0 [] normalized).
    intros l Hl. induction Hl as [|x l Hx Hl IH]; [done|].
    destruct l; [done|]. exact IH. }
  unfold matchBezeichnung, takeEndWhile.
  rewrite dropEndWhile_none by done. by rewrite drop_all.
Qed.

End LabelForm.

Lemma getBereichByBezeichnung_label_witness :
  StammDaten.getBereichByBezeichnung (H := asciiUnicode)
    (StammDaten.rebuildIndexes (H := asciiUnicode) Sample.stammdaten)
    (str "Haus-A - Keller 3")
  = Some Sample.keller3.
Proof.
  pose proof (proj2 (getBereichByBezeichnung_label (H := asciiUnicode)
                (StammDaten.rebuildIndexes (H := asciiUnicode) Sample.stammdaten)
                (str "Keller") (str "3")
                ltac:(by_compute) ltac:(vm_compute; congruence) ltac:(by_compute)
                ltac:(vm_compute; congruence) ltac:(by_compute) ltac:(vm_compute; lia))
                (str "Haus-A ") [SP] ltac:(vm_compute; reflexivity) ltac:(vm_compute; reflexivity)
                ltac:(right; reflexivity)) as E.
  etransitivity; [exact E|]. vm_compute. reflexivity.
Defined.

Lemma getBereichByBezeichnung_no_digit_witness :
  StammDaten.getBereichByBezeichnung (H := asciiUnicode)
    (StammDaten.rebuildIndexes (H := asciiUnicode) Sample.stammdaten) (str "Hof") = None.
Proof.
  apply (@getBereichByBezeichnung_no_digit asciiUnicode). by_compute.
Defined.

(** ** Escaping and unescaping *)

Section EscapeRoundTrip.

Lemma replaceAux_ext (m m' : matcher) (rep : jsstring) (k : nat) (s : jsstring) :
  (forall t, m t = m' t) -> replaceAux m rep k s = replaceAux m' rep k s.
Proof.
  intros E. revert k; induction s as [|c s IH]; intros k; [done|].
  cbn [replaceAux]. destruct k; [|done]. rewrite <- E.
  destruct (m (c :: s)) as [[|n]|]; by rewrite ?IH.
Qed.

Lemma replaceAll_unit (c : N) (rep s : jsstring) :
  replaceAll (literal [c]) rep s = concat (map (fun x => if x =? c then rep else [x]) s).
Proof.
  unfold replaceAll. induction s as [|x s IH]; [done|].
  cbn [replaceAux map concat]. unfold literal at 1. rewrite startsWith_single.
  rewrite (N.eqb_sym c x). destruct (x =? c); cbn [length]; by rewrite IH.
Qed.

Lemma replaceAll_unit_app (c : N) (rep a b : jsstring) :
  replaceAll (literal [c]) rep (a ++ b)
  = replaceAll (literal [c]) rep a ++ replaceAll (literal [c]) rep b.
Proof. by rewrite !replaceAll_unit, map_app, concat_app. Qed.

Lemma escapeIcsText_app (a b : jsstring) :
  escapeIcsText (a ++ b) = escapeIcsText a ++ escapeIcsText b.
Proof. unfold escapeIcsText. by rewrite !replaceAll_unit_app. Qed.

Lemma escapeIcsText_unit (c : N) : escapeIcsText [c] = unitsOf (tokenOf c).
Proof.
  unfold escapeIcsText, tokenOf. rewrite (replaceAll_unit BACKSLASH). cbn [map concat].
  destruct (N.eqb_spec c BACKSLASH) as [->|H1]; [reflexivity|]. cbn [app].
  rewrite (replaceAll_unit LF). cbn [map concat].
  destruct (N.eqb_spec c LF) as [->|H2]; [reflexivity|]. cbn [app].
  rewrite (replaceAll_unit COMMA). cbn [map concat].
  destruct (N.eqb_spec c COMMA) as [->|H3]; [reflexivity|]. cbn [app].
  rewrite (replaceAll_unit SEMICOLON). cbn [map concat].
  destruct (N.eqb_spec c SEMICOLON) as [->|H4]; [reflexivity|]. done.
Qed.

Lemma escapeIcsText_tokens (v : jsstring) :
  escapeIcsText v = concat (map unitsOf (map tokenOf v)).
Proof.
  induction v as [|c v IH]; [done|].
  change (c :: v) with ([c] ++ v). rewrite escapeIcsText_app, escapeIcsText_unit, IH. done.
Qed.

Lemma escapedUnit_plain (P : N -> bool) (c : N) (s : jsstring) :
  c <> BACKSLASH -> escapedUnit P (c :: s) = None.
Proof.
  intros Hc. unfold escapedUnit. destruct c as [|p]; [done|].
  do 7 (destruct p as [p|p|]; try done).
Qed.

Lemma escapedUnit_pair (P : N -> bool) (c : N) (s : jsstring) :
  escapedUnit P (BACKSLASH :: c :: s) = if P c then Some 2%nat else None.
Proof. done. Qed.

(** One pass of [unescapeIcsText] over a row of tokens works token by
    token. *)
Lemma unescape_pass (P : N -> bool) (r : N) (ts : list EscapeToken) :
  Forall plainOk ts -> seamless P ts ->
  replaceAll (escapedUnit P) [r] (concat (map unitsOf ts))
  = concat (map unitsOf (map (unescapeToken P r) ts)).
Proof.
  intros Hok Hseam. unfold replaceAll.
  induction Hok as [|t ts Ht Hok IH]; [done|].
  destruct Hseam as [Hhead Hseam]. specialize (IH Hseam).
  cbn [map concat]. destruct t as [c|c]; cbn [unitsOf unescapeToken app].
  - cbn [replaceAux]. rewrite escapedUnit_plain by done. by rewrite IH.
  - cbn [replaceAux]. rewrite escapedUnit_pair.
    destruct (P c) eqn:HPc.
    + cbn [app unitsOf]. by rewrite IH.
    + cbn [unitsOf app]. f_equal.
      destruct (decide (c = BACKSLASH)) as [->|Hc].
      * (* the doubled backslash: what follows decides *)
        destruct ts as [|t' ts'].
        { done. }
        cbn [map concat] in *. destruct t' as [c'|c']; cbn [unitsOf app] in *.
        -- cbn [replaceAux]. rewrite escapedUnit_pair.
           rewrite (Hhead eq_refl). f_equal. exact IH.
        -- cbn [replaceAux]. rewrite (escapedUnit_pair P BACKSLASH).
           rewrite HPc. f_equal. exact IH.
      * cbn [replaceAux]. rewrite escapedUnit_plain by done. by rewrite IH.
Qed.

Lemma literal_pair (x : N) (s : jsstring) :
  literal [BACKSLASH; x] s = escapedUnit (fun c => x =? c) s.
Proof.
  unfold literal. destruct s as [|b s]; [done|].
  destruct (decide (b = BACKSLASH)) as [->|Hb].
  - destruct s as [|c s]; [done|]. rewrite escapedUnit_pair.
    cbn [startsWith]. change (BACKSLASH =? BACKSLASH) with true. cbn [andb].
    rewrite andb_true_r. done.
  - rewrite escapedUnit_plain by done. cbn [startsWith].
    apply N.eqb_neq in Hb. rewrite N.eqb_sym in Hb. by rewrite Hb.
Qed.

Lemma seamless_free (P : N -> bool) (ts : list EscapeToken) :
  Forall (fun t => match t with Plain c => P c = false | Escaped _ => True end) ts ->
  seamless P ts.
Proof.
  induction 1 as [|t ts Ht Hts IH]; [done|]. split; [|done].
  destruct t as [|c]; [done|]. destruct Hts as [|[d|d] ts' Ht' _]; done.
Qed.

Lemma seamless_tokens (v : jsstring) :
  includes v [BACKSLASH; 110] = false -> includes v [BACKSLASH; 78] = false ->
  seamless isLetterN (map tokenOf v).
Proof.
  induction v as [|c v IH]; [done|]. intros [S1 I1]%includes_cons_false [S2 I2]%includes_cons_false.
  split; [|by apply IH]. clear IH.
  unfold tokenOf at 1.
  destruct (N.eqb_spec c BACKSLASH) as [->|H1].
  - destruct v as [|c' v]; [done|]. cbn [map]. unfold tokenOf.
    destruct (c' =? BACKSLASH); [done|]. destruct (c' =? LF); [done|].
    destruct (c' =? COMMA); [done|]. destruct (c' =? SEMICOLON); [done|].
    intros _.
    cbn [startsWith] in S1, S2. change (BACKSLASH =? BACKSLASH) with true in S1, S2.
    cbn [andb] in S1, S2. rewrite andb_true_r in S1, S2.
    unfold isLetterN. rewrite (N.eqb_sym c'), S1, (N.eqb_sym c'), S2. done.
  - destruct (map tokenOf v) as [|[d|d] more];
      destruct (c =? LF); try done; destruct (c =? COMMA); try done;
      destruct (c =? SEMICOLON); done.
Qed.

Ltac token_cases c :=
  unfold tokenOf;
  destruct (N.eqb_spec c BACKSLASH) as [->|?]; [done|];
  destruct (N.eqb_spec c LF) as [->|?]; [done|];
  destruct (N.eqb_spec c COMMA) as [->|?]; [done|];
  destruct (N.eqb_spec c SEMICOLON) as [->|?]; [done|].

Lemma escape_round_trip (v : jsstring) :
  includes v [BACKSLASH; 110] = false -> includes v [BACKSLASH; 78] = false ->
  unescapeIcsText (escapeIcsText v) = v.
Proof.
  intros Hn HN. unfold unescapeIcsText. rewrite escapeIcsText_tokens.
  change escapedNewline with (escapedUnit isLetterN).
  rewrite unescape_pass; [|apply Forall_map, Forall_forall; intros c _; token_cases c; done
                          |by apply seamless_tokens].
  unfold replaceAll.
  rewrite (replaceAux_ext _ _ _ _ _ (literal_pair COMMA)).
  rewrite (replaceAux_ext (literal [BACKSLASH; SEMICOLON]) _ _ _ _ (literal_pair SEMICOLON)).
  rewrite (replaceAux_ext (literal [BACKSLASH; BACKSLASH]) _ _ _ _ (literal_pair BACKSLASH)).
  fold (replaceAll (escapedUnit (fun c => COMMA =? c)) [COMMA]
          (concat (map unitsOf (map (unescapeToken isLetterN LF) (map tokenOf v))))).
  rewrite !map_map.
  rewrite <- (map_map _ unitsOf).
  rewrite unescape_pass.
  2:{ apply Forall_map, Forall_forall; intros c _; token_cases c; done. }
  2:{ apply seamless_free. apply Forall_map, Forall_forall; intros c _. token_cases c.
      cbn [unescapeToken]. by apply N.eqb_neq, not_eq_sym. }
  fold (replaceAll (escapedUnit (fun c => SEMICOLON =? c)) [SEMICOLON]
          (concat (map unitsOf
             (map (unescapeToken (fun c => COMMA =? c) COMMA)
                (map (fun c => unescapeToken isLetterN LF (tokenOf c)) v))))).
  rewrite !map_map. rewrite <- (map_map _ unitsOf).
  rewrite unescape_pass.
  2:{ apply Forall_map, Forall_forall; intros c _; token_cases c; done. }
  2:{ apply seamless_free. apply Forall_map, Forall_forall; intros c _. token_cases c.
      cbn [unescapeToken]. by apply N.eqb_neq, not_eq_sym. }
  fold (replaceAll (escapedUnit (fun c => BACKSLASH =? c)) [BACKSLASH]
          (concat (map unitsOf
             (map (unescapeToken (fun c => SEMICOLON =? c) SEMICOLON)
                (map (fun c => unescapeToken (fun c => COMMA =? c) COMMA
                                 (unescapeToken isLetterN LF (tokenOf c))) v))))).
  rewrite !map_map. rewrite <- (map_map _ unitsOf).
  rewrite unescape_pass.
  2:{ apply Forall_map, Forall_forall; intros c _; token_cases c; done. }
  2:{ apply seamless_free. apply Forall_map, Forall_forall; intros c _. token_cases c.
      cbn [unescapeToken]. by apply N.eqb_neq, not_eq_sym. }
  rewrite !map_map.
  induction v as [|c v IH]; [done|]. cbn [map concat].
  apply includes_cons_false in Hn as [_ Hn]. apply includes_cons_false in HN as [_ HN].
  rewrite (IH Hn HN). clear IH.
  token_cases c. done.
Qed.

(** X8: unescaping gives back a text that was escaped, when the text has no
    backslash directly before the letter n or N. *)
Theorem unescape_escape (v : jsstring) :
  includes v [BACKSLASH; 110] = false -> includes v [BACKSLASH; 78] = false ->
  unescapeIcsText (escapeIcsText v) = v.
Proof. apply escape_round_trip. Qed.


(** X27: an escaped text has no line feed. *)
Theorem escapeIcsText_one_line (v : jsstring) : LF ∉ escapeIcsText v.
Proof.
  induction v as [|c v IH]; [apply not_elem_of_nil|].
  change (c :: v) with ([c] ++ v). rewrite escapeIcsText_app, escapeIcsText_unit.
  apply not_elem_of_app. split; [|done].
  unfold tokenOf.
  destruct (N.eqb_spec c BACKSLASH) as [->|?]; [by_compute|].
  destruct (N.eqb_spec c LF) as [->|?]; [by_compute|].
  destruct (N.eqb_spec c COMMA) as [->|?]; [by_compute|].
  destruct (N.eqb_spec c SEMICOLON) as [->|?]; [by_compute|].
  cbn [unitsOf]. apply not_elem_of_cons. split; [done|apply not_elem_of_nil].
Qed.


End EscapeRoundTrip.

Lemma unescape_escape_witness :
  unescapeIcsText (escapeIcsText (str "a,b;c" ++ [BACKSLASH; LF] ++ str "d"))
  = str "a,b;c" ++ [BACKSLASH; LF] ++ str "d".
Proof. apply unescape_escape; reflexivity. Defined.

(** ** The properties of a component *)

Section Properties.
Context `{UnicodeOps}.

Lemma setProperty_lookup (K line : jsstring) (props : gmap jsstring jsstring) :
  setProperty props line !! K
  = if lineHasKey K line then Some (valueOfLine line) else props !! K.
Proof.
  unfold setProperty, lineHasKey, valueOfLine.
  destruct (indexOf line [COLON] <=? 0)%Z; [done|].
  set (k := toUpperCase _).
  destruct (streq k K) eqn:E.
  - apply streq_spec in E as ->. by rewrite lookup_insert_eq.
  - rewrite lookup_insert_ne; [done|]. intros ->. by rewrite streq_refl in E.
Qed.

Lemma fold_setProperty_lookup (K : jsstring) (lines : list jsstring)
    (props : gmap jsstring jsstring) :
  fold_left setProperty lines props !! K
  = match last (List.filter (lineHasKey K) lines) with
    | Some line => Some (valueOfLine line)
    | None => props !! K
    end.
Proof.
  revert props; induction lines as [|l lines IH]; intros props; [done|].
  cbn [fold_left List.filter]. rewrite IH, setProperty_lookup.
  destruct (lineHasKey K l); [|done].
  rewrite last_cons. by destruct (last _).
Qed.

Lemma carriers_lookup (key : jsstring) (lines : list jsstring) :
  propertiesOfLines lines !! toUpperCase key = valueOfLine <$> last (carriers key lines).
Proof.
  unfold propertiesOfLines, carriers. rewrite fold_setProperty_lookup, lookup_empty.
  by destruct (last _).
Qed.

(** X9: the value of a key among the properties of a list of lines is the
    value of the last line that carries the key, and the key is absent when
    no line carries it. *)
Theorem propertiesOfLines_last (key : jsstring) (lines : list jsstring) :
  propertiesOfLines lines !! toUpperCase key = valueOfLine <$> last (carriers key lines).
Proof. apply carriers_lookup. Qed.

Lemma lineHasKey_unique (K K' line : jsstring) :
  lineHasKey K line = true -> K' <> K -> lineHasKey K' line = false.
Proof.
  unfold lineHasKey. destruct (_ <=? 0)%Z; [done|].
  intros E%streq_spec Hne. apply streq_neq. congruence.
Qed.

Lemma newLine_index (K value : jsstring) :
  (COLON ∉ K) -> indexOf (K ++ [COLON] ++ value) [COLON] = Z.of_nat (length K).
Proof. intros Hc. cbn [app]. by apply indexOf_single_app. Qed.

Lemma newLine_hasKey (key value K' : jsstring) :
  properKey key ->
  lineHasKey K' (toUpperCase key ++ [COLON] ++ value) = streq (toUpperCase key) K'.
Proof.
  intros (Hne & Hc & Hs & Hup). unfold lineHasKey. rewrite newLine_index by done.
  destruct (toUpperCase key) as [|c K] eqn:EK; [done|].
  destruct (_ <=? 0)%Z eqn:Hle; [apply Z.leb_le in Hle; cbn [length] in Hle; lia|].
  rewrite Nat2Z.id. unfold slice. rewrite Nat.sub_0_r, drop_0, take_app_length.
  rewrite firstPiece_takeWhile.
  assert (E : takeStartWhile notSemicolon (c :: K) = c :: K).
  { clear -Hs. induction (c :: K) as [|x l IH]; [done|]. cbn [takeStartWhile].
    unfold notSemicolon at 1. destruct (N.eqb_spec x SEMICOLON) as [->|Hx].
    - exfalso. apply Hs. apply elem_of_cons. by left.
    - cbn [negb]. f_equal. apply IH. intros Hin. apply Hs. apply elem_of_cons. by right. }
  rewrite E. by rewrite Hup.
Qed.

Lemma newLine_value (key value : jsstring) :
  properKey key ->
  valueOfLine (toUpperCase key ++ [COLON] ++ value) = unescapeIcsText value.
Proof.
  intros (Hne & Hc & Hs & Hup). unfold valueOfLine. rewrite newLine_index by done.
  rewrite Nat2Z.id. unfold sliceFrom.
  replace (length (toUpperCase key) + 1)%nat with (length (toUpperCase key ++ [COLON]))
    by (rewrite length_app; cbn [length]; lia).
  by rewrite app_assoc, drop_app_length.
Qed.

Lemma filter_nil_lookup {A} (p : A -> bool) (l : list A) :
  (forall i x, l !! i = Some x -> p x = false) -> List.filter p l = [].
Proof.
  induction l as [|y l IH]; intros Hall; [done|]. cbn [List.filter].
  rewrite (Hall 0%nat y eq_refl). apply IH. intros i x Hi. by apply (Hall (S i)).
Qed.

(** What [upsertProperty] does, in terms of the first line that carries the key. *)
Lemma upsertProperty_cases (lines : list jsstring) (key value : jsstring) :
  (carriers key lines = []
   /\ upsertProperty lines key value = lines ++ [toUpperCase key ++ [COLON] ++ value])
  \/ (exists a old b,
        lines = a ++ old :: b
        /\ carriers key a = []
        /\ lineHasKey (toUpperCase key) old = true
        /\ upsertProperty lines key value
           = a ++ (toUpperCase key ++ [COLON] ++ value) :: b).
Proof.
  unfold upsertProperty, findIndex.
  destruct (findIndexFrom_spec (fun line (_ : Z) => lineHasKey (toUpperCase key) line) lines 0)
    as [[-> Hnone] | (a & old & b & -> & -> & Hold & Ha)].
  - left. split; [|done]. unfold carriers. by apply filter_nil_lookup.
  - right. exists a, old, b. split; [done|]. split; [|split; [done|]].
    + unfold carriers. by apply filter_nil_lookup.
    + destruct (0 <=? 0 + Z.of_nat (length a))%Z eqn:Hle; [|apply Z.leb_gt in Hle; lia].
      replace (Z.to_nat (0 + Z.of_nat (length a))) with (length a + 0)%nat by lia.
      by rewrite insert_app_r.
Qed.

Lemma filter_nil_elem {A} (p : A -> bool) (l : list A) (x : A) :
  List.filter p l = [] -> x ∈ l -> p x = false.
Proof.
  induction l as [|y l IH]; intros E Hin; [by apply elem_of_nil in Hin|].
  cbn [List.filter] in E. destruct (p y) eqn:Hy; [done|].
  apply elem_of_cons in Hin as [->|Hin]; [done|]. by apply IH.
Qed.

Lemma upsertProperty_append (lines : list jsstring) (key value : jsstring) :
  carriers key lines = [] ->
  upsertProperty lines key value = lines ++ [toUpperCase key ++ [COLON] ++ value].
Proof.
  intros Hnone. unfold upsertProperty, findIndex.
  rewrite findIndexFrom_none; [done|].
  intros x Hx. by apply (filter_nil_elem _ _ _ Hnone).
Qed.

Lemma upsertProperty_replace (a b : list jsstring) (old key value : jsstring) :
  carriers key a = [] -> lineHasKey (toUpperCase key) old = true ->
  upsertProperty (a ++ old :: b) key value
  = a ++ (toUpperCase key ++ [COLON] ++ value) :: b.
Proof.
  intros Hnone Hold. unfold upsertProperty, findIndex.
  rewrite (findIndexFrom_first _ _ (length a) old).
  - destruct (0 <=? 0 + Z.of_nat (length a))%Z eqn:Hle; [|apply Z.leb_gt in Hle; lia].
    replace (Z.to_nat (0 + Z.of_nat (length a))) with (length a + 0)%nat by lia.
    by rewrite insert_app_r.
  - by rewrite list_lookup_middle.
  - done.
  - intros j y Hj Hy. rewrite lookup_app_l in Hy by done.
    apply (filter_nil_elem _ _ _ Hnone). by eapply list_elem_of_lookup_2.
Qed.

Lemma newLine_carries (key value : jsstring) :
  properKey key -> lineHasKey (toUpperCase key) (toUpperCase key ++ [COLON] ++ value) = true.
Proof. intros Hk. rewrite newLine_hasKey by done. apply streq_refl. Qed.

Lemma newLine_other (key value K' : jsstring) :
  properKey key -> K' <> toUpperCase key ->
  lineHasKey K' (toUpperCase key ++ [COLON] ++ value) = false.
Proof. intros Hk Hne. rewrite newLine_hasKey by done. by apply streq_neq. Qed.

Lemma carriers_new (a b : list jsstring) (key value : jsstring) :
  properKey key -> carriers key a = [] ->
  carriers key (a ++ (toUpperCase key ++ [COLON] ++ value) :: b)
  = (toUpperCase key ++ [COLON] ++ value) :: carriers key b.
Proof.
  intros Hk Ha. unfold carriers in *. rewrite List.filter_app, Ha. cbn [List.filter].
  by rewrite newLine_carries.
Qed.

Lemma carriers_old (a b : list jsstring) (key old : jsstring) :
  carriers key a = [] -> lineHasKey (toUpperCase key) old = true ->
  carriers key (a ++ old :: b) = old :: carriers key b.
Proof.
  intros Ha Hold. unfold carriers in *. rewrite List.filter_app, Ha. cbn [List.filter].
  by rewrite Hold.
Qed.

Lemma upsert_lookup (lines : list jsstring) (key value : jsstring) :
  properKey key -> (length (carriers key lines) <= 1)%nat ->
  propertiesOfLines (upsertProperty lines key value) !! toUpperCase key
  = Some (unescapeIcsText value).
Proof.
  intros Hk Hone. rewrite carriers_lookup.
  destruct (upsertProperty_cases lines key value)
    as [[Hnone ->] | (a & old & b & -> & Ha & Hold & ->)].
  - rewrite carriers_new by done. cbn [carriers List.filter last fmap option_fmap option_map].
    by rewrite newLine_value.
  - rewrite carriers_old in Hone by done. rewrite carriers_new by done.
    destruct (carriers key b); [|cbn [length] in Hone; lia].
    cbn [last fmap option_fmap option_map]. by rewrite newLine_value.
Qed.

(** X10: a property that is set is the one that is read, when at most one
    line carried its key. *)
Theorem upsertProperty_lookup (lines : list jsstring) (key value : jsstring) :
  properKey key -> (length (carriers key lines) <= 1)%nat ->
  propertiesOfLines (upsertProperty lines key value) !! toUpperCase key
  = Some (unescapeIcsText value).
Proof. apply upsert_lookup. Qed.

(** X11: when two lines or more carry the key, setting the property changes
    the first of them and leaves the value that is read, which is that of
    the last. *)
Theorem upsertProperty_shadowed (lines : list jsstring) (key value : jsstring) :
  properKey key -> (2 <= length (carriers key lines))%nat ->
  propertiesOfLines (upsertProperty lines key value) !! toUpperCase key
  = propertiesOfLines lines !! toUpperCase key.
Proof.
  intros Hk Htwo. rewrite !carriers_lookup.
  destruct (upsertProperty_cases lines key value)
    as [[Hnone ->] | (a & old & b & -> & Ha & Hold & ->)].
  - rewrite Hnone in Htwo. cbn [length] in Htwo. lia.
  - rewrite carriers_old in Htwo by done.
    rewrite (carriers_old a b key old), carriers_new by done.
    destruct (carriers key b) as [|x more]; [cbn [length] in Htwo; lia|].
    by rewrite !last_cons_cons.
Qed.

Lemma upsert_frame (lines : list jsstring) (key value K' : jsstring) :
  properKey key -> K' <> toUpperCase key ->
  propertiesOfLines (upsertProperty lines key value) !! K'
  = propertiesOfLines lines !! K'.
Proof.
  intros Hk Hne. unfold propertiesOfLines. rewrite !fold_setProperty_lookup.
  destruct (upsertProperty_cases lines key value)
    as [[Hnone ->] | (a & old & b & -> & Ha & Hold & ->)].
  - rewrite List.filter_app. cbn [List.filter]. rewrite newLine_other by done.
    by rewrite app_nil_r.
  - rewrite !List.filter_app. cbn [List.filter]. rewrite newLine_other by done.
    by rewrite (lineHasKey_unique _ _ _ Hold Hne).
Qed.

(** X12: setting a property leaves the value of every other key. *)
Theorem upsertProperty_frame (lines : list jsstring) (key value K' : jsstring) :
  properKey key -> K' <> toUpperCase key ->
  propertiesOfLines (upsertProperty lines key value) !! K'
  = propertiesOfLines lines !! K'.
Proof. apply upsert_frame. Qed.

(** X13: of two settings of a key the second is the one that stays: the
    lines are those of the second setting alone. *)
Theorem upsertProperty_twice (lines : list jsstring) (key value1 value2 : jsstring) :
  properKey key ->
  upsertProperty (upsertProperty lines key value1) key value2
  = upsertProperty lines key value2.
Proof.
  intros Hk.
  destruct (upsertProperty_cases lines key value1)
    as [[Hnone ->] | (a & old & b & -> & Ha & Hold & ->)].
  - rewrite (upsertProperty_append lines key value2) by done.
    rewrite (upsertProperty_replace lines [] _ key value2); [done|done|].
    by apply newLine_carries.
  - rewrite (upsertProperty_replace a b old key value2) by done.
    apply upsertProperty_replace; [done|]. by apply newLine_carries.
Qed.




End Properties.

Lemma upsertProperty_lookup_witness :
  propertiesOfLines (H := asciiUnicode)
    (upsertProperty (H := asciiUnicode) Sample.oneDescription (str "DESCRIPTION") (str "* a"))
    !! str "DESCRIPTION"
  = Some (str "* a").
Proof.
  apply (@upsertProperty_lookup asciiUnicode Sample.oneDescription (str "DESCRIPTION")
           (str "* a") ltac:(repeat split; by_compute)).
  vm_compute. lia.
Defined.

Lemma upsertProperty_shadowed_witness :
  propertiesOfLines (H := asciiUnicode)
    (upsertProperty (H := asciiUnicode) Sample.component (str "DESCRIPTION") (str "* a"))
    !! str "DESCRIPTION"
  = propertiesOfLines (H := asciiUnicode) Sample.component !! str "DESCRIPTION".
Proof.
  apply (@upsertProperty_shadowed asciiUnicode Sample.component (str "DESCRIPTION")
           (str "* a") ltac:(repeat split; by_compute)).
  vm_compute. lia.
Defined.

Lemma upsertProperty_frame_witness :
  propertiesOfLines (H := asciiUnicode)
    (upsertProperty (H := asciiUnicode) Sample.component (str "DESCRIPTION") (str "* a"))
    !! str "UID"
  = propertiesOfLines (H := asciiUnicode) Sample.component !! str "UID".
Proof.
  apply (@upsertProperty_frame asciiUnicode Sample.component (str "DESCRIPTION")
           (str "* a") (str "UID") ltac:(repeat split; by_compute)).
  vm_compute. discriminate.
Defined.

Lemma upsertProperty_twice_witness :
  upsertProperty (H := asciiUnicode)
    (upsertProperty (H := asciiUnicode) Sample.component (str "DESCRIPTION") (str "* a"))
    (str "DESCRIPTION") (str "* b")
  = upsertProperty (H := asciiUnicode) Sample.component (str "DESCRIPTION") (str "* b").
Proof.
  apply (@upsertProperty_twice asciiUnicode Sample.component (str "DESCRIPTION")
           (str "* a") (str "* b") ltac:(repeat split; by_compute)).
Defined.

(** ** The bounds of the component, and updates *)

Section Bounds.
Context `{UnicodeOps}.

Lemma getVtodoBounds_intro (before region after : list jsstring) :
  (BEGIN_VTODO ∉ before) -> (END_VTODO ∉ region) ->
  getVtodoBounds (before ++ [BEGIN_VTODO] ++ region ++ [END_VTODO] ++ after)
  = Some (Z.of_nat (length before), Z.of_nat (length before + 1 + length region)).
Proof.
  intros Hb He. unfold getVtodoBounds, findIndex.
  rewrite (findIndexFrom_first (fun line => streq line BEGIN_VTODO) _ (length before) BEGIN_VTODO).
  2:{ by apply list_lookup_middle. }
  2:{ apply streq_refl. }
  2:{ intros j y Hj Hy. rewrite lookup_app_l in Hy by done. apply streq_neq.
      intros ->. apply Hb. by eapply list_elem_of_lookup_2. }
  destruct (0 + Z.of_nat (length before) <? 0)%Z eqn:Hlt; [apply Z.ltb_lt in Hlt; lia|].
  rewrite !app_assoc. rewrite <- (app_assoc _ [END_VTODO] after).
  rewrite findIndexFrom_app.
  - cbn [app findIndexFrom]. rewrite streq_refl, andb_true_r.
    rewrite !length_app. cbn [length].
    assert (Hlt2 : (0 + Z.of_nat (length before)
                    <? 0 + Z.of_nat (length before + 1 + length region))%Z = true)
      by (apply Z.ltb_lt; lia).
    rewrite Hlt2, !Z.add_0_l.
    destruct (Z.ltb_spec (Z.of_nat (length before + 1 + length region)) 0); [lia|done].
  - intros i x Hi.
    destruct (decide (i <= length before)%nat) as [Hle|Hgt].
    + apply andb_false_iff. left. apply Z.ltb_ge. lia.
    + apply andb_false_iff. right. apply streq_neq. intros ->. apply He.
      rewrite <- app_assoc in Hi. rewrite lookup_app_r in Hi by lia.
      cbn [app] in Hi.
      destruct (i - length before)%nat as [|k] eqn:Ek; [lia|]. cbn [lookup list_lookup] in Hi.
      by eapply list_elem_of_lookup_2.
Qed.

(** X14: the bounds are found exactly when the lines have a begin marker and
    an end marker behind it, and they are the index of the first begin
    marker and the index of the first end marker behind it. *)
Theorem getVtodoBounds_spec (lines : list jsstring) (b e : Z) :
  getVtodoBounds lines = Some (b, e)
  <-> exists before region after,
        lines = before ++ [BEGIN_VTODO] ++ region ++ [END_VTODO] ++ after
        /\ (BEGIN_VTODO ∉ before) /\ (END_VTODO ∉ region)
        /\ b = Z.of_nat (length before)
        /\ e = Z.of_nat (length before + 1 + length region).
Proof.
  split; [apply getVtodoBounds_Some|].
  intros (before & region & after & -> & Hb & He & -> & ->).
  by apply getVtodoBounds_intro.
Qed.

Variable cfg : TaskModifierConfig.



(** X20: a file without a begin marker, or without an end marker behind the
    first one, is read as a task, and every update of it fails and leaves the
    world as it was: with the error of the index when the index is out of
    range, and with the error of the missing component otherwise. *)
Theorem update_without_component (now : UtcDate) (filePath content : jsstring) (index : Z)
    (patch : Patch) (w : World) :
  files w !! filePath = Some content ->
  getVtodoBounds (unfoldIcsLines content) = None ->
  readTaskFromFile cfg filePath w = (inr (parseTaskFromIcsContent cfg content (Some filePath)), w)
  /\ updateUnteraufgabeInFile cfg now filePath index patch w
     = (inl (if (index <? 0)%Z
                || (Z.of_nat (length (unteraufgaben
                                        (parseTaskFromIcsContent cfg content (Some filePath))))
                    <=? index)%Z
             then IndexOutOfRange index else NoVtodoComponent), w).
Proof.
  intros Hfile Hnone. split.
  - unfold readTaskFromFile, bind, readFile, ret. by rewrite Hfile.
  - unfold updateUnteraufgabeInFile, readTaskFromFile, writeUnteraufgabenToFile,
      bind, readFile, writeFile, ret, throw.
    rewrite Hfile. rewrite length_map.
    destruct (_ || _) eqn:Hrange; [done|].
    apply orb_false_iff in Hrange as [H1%Z.ltb_ge H2%Z.leb_gt].
    destruct (_ !! Z.to_nat index) eqn:Hlook.
    + by rewrite Hfile, Hnone.
    + apply lookup_ge_None in Hlook. rewrite length_map in Hlook. lia.
Qed.

End Bounds.


Lemma update_without_component_witness :
  readTaskFromFile (H := asciiUnicode) defaultModifier Sample.path Sample.openEndedWorld
  = (inr (parseTaskFromIcsContent (H := asciiUnicode) defaultModifier Sample.openEndedTask
            (Some Sample.path)), Sample.openEndedWorld)
  /\ updateUnteraufgabeInFile (H := asciiUnicode) defaultModifier Sample.now Sample.path 0
       Sample.markDone Sample.openEndedWorld
     = (inl NoVtodoComponent, Sample.openEndedWorld).
Proof.
  apply (@update_without_component asciiUnicode defaultModifier Sample.now Sample.path
           Sample.openEndedTask 0 Sample.markDone Sample.openEndedWorld).
  - vm_compute. reflexivity.
  - vm_compute. reflexivity.
Defined.

(** ** The status symbol at the start of a line *)

Section SortedByLength.
Context {A : Type} (key : A -> nat).

Lemma insertByLength_sorted (x : A) (l : list A) :
  StronglySorted (fun a b => (key b <= key a)%nat) l ->
  StronglySorted (fun a b => (key b <= key a)%nat) (insertByLength key x l).
Proof.
  induction 1 as [|y l Hs IH Hy]; cbn [insertByLength].
  - constructor; [constructor|done].
  - destruct (Nat.leb_spec (key y) (key x)) as [Hle|Hgt].
    + constructor; [by constructor|]. constructor; [done|].
      eapply Forall_impl; [exact Hy|]. intros b Hb. cbn beta in *. lia.
    + constructor; [done|]. apply Forall_forall. intros b Hb.
      apply insertByLength_elem in Hb as [->|Hb]; [lia|].
      rewrite Forall_forall in Hy. by apply Hy.
Qed.

Lemma sortByLengthDesc_sorted (l : list A) :
  StronglySorted (fun a b => (key b <= key a)%nat) (sortByLengthDesc key l).
Proof.
  induction l as [|x l IH]; [constructor|]. by apply insertByLength_sorted.
Qed.

End SortedByLength.

Section Prefix.
Context `{UnicodeOps}.
Variable cfg : TaskModifierConfig.

Lemma firstCandidate_spec (rawPart : jsstring) (cs : list Candidate) :
  (Forall (fun c => startsWith rawPart (c_symbol c) = false) cs
   /\ firstCandidate rawPart cs = noPrefix rawPart)
  \/ (exists pre c post,
        cs = pre ++ c :: post
        /\ Forall (fun c => startsWith rawPart (c_symbol c) = false) pre
        /\ startsWith rawPart (c_symbol c) = true
        /\ firstCandidate rawPart cs
           = {| sp_symbol := c_symbol c; sp_status := c_status c;
                sp_freigegeben := c_freigegeben c;
                sp_inhalt := trim (sliceFrom rawPart (length (c_symbol c))) |}).
Proof.
  induction cs as [|c cs IH]; [by left|]. cbn [firstCandidate].
  destruct (startsWith rawPart (c_symbol c)) eqn:E.
  - right. by exists [], c, cs.
  - destruct IH as [[Hall ->] | (pre & c' & post & -> & Hpre & Hc' & ->)].
    + left. split; [by constructor|done].
    + right. exists (c :: pre), c', post. split; [done|]. split; [by constructor|done].
Qed.

Lemma candidates_symbols (c : Candidate) :
  c ∈ candidates cfg ->
  c_symbol c ∈ statusSymbolsOf cfg
  /\ c_symbol c = toSymbol cfg (c_status c) (c_freigegeben c).
Proof.
  unfold candidates. rewrite sortByLengthDesc_elem. unfold statusSymbolsOf.
  rewrite !elem_of_cons, elem_of_nil. intros [->|[->|[->|[->|[]]]]]; cbn; set_solver.
Qed.

Lemma symbols_candidates (sym : jsstring) :
  sym ∈ statusSymbolsOf cfg -> exists c, c ∈ candidates cfg /\ c_symbol c = sym.
Proof.
  unfold statusSymbolsOf, candidates. rewrite !elem_of_cons, elem_of_nil.
  intros [->|[->|[->|[->|[]]]]].
  - exists {| c_symbol := sym_freigegeben (nichtBegonnen (statusSymbole cfg));
              c_status := false; c_freigegeben := true |}.
    split; [apply sortByLengthDesc_elem; set_solver | done].
  - exists {| c_symbol := sym_gesperrt (nichtBegonnen (statusSymbole cfg));
              c_status := false; c_freigegeben := false |}.
    split; [apply sortByLengthDesc_elem; set_solver | done].
  - exists {| c_symbol := sym_freigegeben (erledigt (statusSymbole cfg));
              c_status := true; c_freigegeben := true |}.
    split; [apply sortByLengthDesc_elem; set_solver | done].
  - exists {| c_symbol := sym_gesperrt (erledigt (statusSymbole cfg));
              c_status := true; c_freigegeben := false |}.
    split; [apply sortByLengthDesc_elem; set_solver | done].
Qed.

(** X17: when no status symbol of the configuration stands at the start of a
    line, the line is read without a symbol, as not done and released;
    otherwise the symbol that is read is one of the configuration that the
    line starts with, no symbol that the line starts with is longer, the
    status and the lock that are read are those that this symbol encodes, and
    the content is what stands behind it, trimmed. *)
Theorem parseStatusPrefix_longest (rawPart : jsstring) :
  let found := parseStatusPrefix cfg rawPart in
  ((forall sym, sym ∈ statusSymbolsOf cfg -> startsWith rawPart sym = false) ->
   found = noPrefix rawPart)
  /\ forall sym,
       sym ∈ statusSymbolsOf cfg -> startsWith rawPart sym = true ->
       sp_symbol found ∈ statusSymbolsOf cfg
       /\ startsWith rawPart (sp_symbol found) = true
       /\ (length sym <= length (sp_symbol found))%nat
       /\ sp_symbol found = toSymbol cfg (sp_status found) (sp_freigegeben found)
       /\ sp_inhalt found = trim (sliceFrom rawPart (length (sp_symbol found))).
Proof.
  cbv zeta. unfold parseStatusPrefix.
  destruct (firstCandidate_spec rawPart (candidates cfg))
    as [[Hall ->] | (pre & c & post & Hcs & Hpre & Hc & ->)].
  - split; [done|]. intros sym Hsym Hstart. exfalso.
    destruct (symbols_candidates sym Hsym) as (c & Hc & <-).
    rewrite Forall_forall in Hall. by rewrite (Hall c) in Hstart.
  - assert (Hin : c ∈ candidates cfg).
    { rewrite Hcs. apply elem_of_app. right. apply elem_of_cons. by left. }
    destruct (candidates_symbols c Hin) as [Hsym Hto].
    split.
    { intros Hnone. by rewrite (Hnone _ Hsym) in Hc. }
    intros sym Hs Hstart. cbn [sp_symbol sp_status sp_freigegeben sp_inhalt].
    split; [done|]. split; [done|]. split; [|done].
    destruct (symbols_candidates sym Hs) as (c' & Hc' & <-).
    (* c' is c, or stands behind it, or would have been found before it *)
    pose proof (sortByLengthDesc_sorted (fun c => length (c_symbol c))
                  [ {| c_symbol := sym_gesperrt (nichtBegonnen (statusSymbole cfg));
                       c_status := false; c_freigegeben := false |};
                    {| c_symbol := sym_gesperrt (erledigt (statusSymbole cfg));
                       c_status := true; c_freigegeben := false |};
                    {| c_symbol := sym_freigegeben (nichtBegonnen (statusSymbole cfg));
                       c_status := false; c_freigegeben := true |};
                    {| c_symbol := sym_freigegeben (erledigt (statusSymbole cfg));
                       c_status := true; c_freigegeben := true |} ]) as Hsorted.
    fold (candidates cfg) in Hsorted. rewrite Hcs in Hsorted, Hc'.
    apply elem_of_app in Hc' as [Hin'|Hin'%elem_of_cons].
    + rewrite Forall_forall in Hpre. by rewrite (Hpre _ Hin') in Hstart.
    + destruct Hin' as [->|Hpost]; [done|].
      apply StronglySorted_app_1_r in Hsorted. inversion Hsorted as [|? ? _ Hall]; subst.
      rewrite Forall_forall in Hall. by apply Hall.
Qed.

Lemma startsWith_comparable (l a b : jsstring) :
  startsWith l a = true -> startsWith l b = true ->
  startsWith a b = true \/ startsWith b a = true.
Proof.
  revert l b; induction a as [|x a IH]; intros l b Ha Hb.
  - right. by destruct b.
  - destruct b as [|y b]; [by left|]. destruct l as [|z l]; [done|].
    cbn [startsWith] in *.
    apply andb_prop in Ha as [Hx Ha]. apply andb_prop in Hb as [Hy Hb].
    apply N.eqb_eq in Hx, Hy. subst.
    rewrite N.eqb_refl. cbn [andb]. by apply (IH l).
Qed.

Lemma toSymbol_elem (status freigegeben : bool) :
  toSymbol cfg status freigegeben ∈ statusSymbolsOf cfg.
Proof.
  unfold statusSymbolsOf. destruct status, freigegeben; cbn; rewrite !elem_of_cons; auto.
Qed.

Lemma toSymbol_inj (s f s' f' : bool) :
  NoDup (statusSymbolsOf cfg) -> toSymbol cfg s f = toSymbol cfg s' f' -> s = s' /\ f = f'.
Proof.
  unfold statusSymbolsOf. intros Hnd.
  apply NoDup_cons in Hnd as [H1 Hnd]. apply NoDup_cons in Hnd as [H2 Hnd].
  apply NoDup_cons in Hnd as [H3 _].
  do 3 rewrite not_elem_of_cons in H1. do 2 rewrite not_elem_of_cons in H2.
  rewrite not_elem_of_cons in H3.
  unfold toSymbol.
  destruct H1 as (? & ? & ? & _). destruct H2 as (? & ? & _). destruct H3 as (? & _).
  destruct s, f, s', f'; cbn [negb andb]; intros E; try done; exfalso; congruence.
Qed.

(** X28: under a configuration whose four status symbols are different and
    of which none is the start of another, a line that starts with the
    symbol of a status and a lock is read with that symbol, that status and
    that lock, and with the trimmed rest as content. *)
Theorem parseStatusPrefix_toSymbol (status freigegeben : bool) (rest : jsstring) :
  prefixFree cfg ->
  parseStatusPrefix cfg (toSymbol cfg status freigegeben ++ rest)
  = {| sp_symbol := toSymbol cfg status freigegeben;
       sp_status := status;
       sp_freigegeben := freigegeben;
       sp_inhalt := trim rest |}.
Proof.
  intros [Hnd Hfree]. unfold parseStatusPrefix.
  set (sym := toSymbol cfg status freigegeben).
  assert (Hstart : startsWith (sym ++ rest) sym = true) by apply startsWith_app.
  destruct (firstCandidate_spec (sym ++ rest) (candidates cfg))
    as [[Hall _] | (pre & c & post & Hcs & _ & Hc & ->)].
  - exfalso. destruct (symbols_candidates sym (toSymbol_elem _ _)) as (c & Hc & Ec).
    rewrite Forall_forall in Hall. specialize (Hall c Hc). rewrite Ec in Hall. congruence.
  - assert (Hin : c ∈ candidates cfg).
    { rewrite Hcs. apply elem_of_app. right. apply elem_of_cons. by left. }
    destruct (candidates_symbols c Hin) as [Hsym Hto].
    assert (E : c_symbol c = sym).
    { destruct (startsWith_comparable _ _ _ Hc Hstart) as [Hp|Hp].
      - apply Hfree; [done|apply toSymbol_elem|done].
      - symmetry. apply Hfree; [apply toSymbol_elem|done|done]. }
    rewrite E. unfold sliceFrom. rewrite drop_app_length.
    rewrite Hto in E. apply toSymbol_inj in E as [-> ->]; done.
Qed.

Lemma trim_idem (s : jsstring) : trim (trim s) = trim s.
Proof.
  apply trim_fix.
  - apply trimEnd_headOk, trimStart_headOk.
  - apply dropEndWhile_idem.
Qed.

(** X18: every subtask that is parsed from a description has a raw line
    that is not empty and trimmed and starts with the symbol read, a symbol
    that is empty or encodes the status and the lock read, a trimmed title,
    and a hint that, when there is one, is not empty, has no white space to
    trim or to collapse, at most 20 code units and no control code. *)
Theorem parseUnteraufgaben_wellParsed (descriptionRaw : jsstring) :
  Forall (wellParsed cfg) (parseUnteraufgaben cfg descriptionRaw).
Proof.
  unfold parseUnteraufgaben. destruct (nonEmpty _); [|constructor].
  apply Forall_map, Forall_forall. intros rawPart Hin.
  apply list_elem_of_In, filter_In in Hin as [Hin Hne].
  apply in_map_iff in Hin as (x & <- & _).
  unfold wellParsed, parseSegment. cbn [raw symbol status freigegeben titel hinweis].
  split; [by apply nonEmpty_spec|]. split; [apply trim_idem|].
  unfold parseStatusPrefix.
  destruct (firstCandidate_spec (trim x) (candidates cfg))
    as [[_ ->] | (pre & c & post & Hcs & _ & Hc & ->)];
    cbn [noPrefix sp_symbol sp_status sp_freigegeben sp_inhalt].
  - split; [done|]. split; [by left|].
    unfold splitTitelUndHinweis.
    destruct (getHinweisSeparator cfg) as [separator|]; [|by split; [apply trim_idem|]].
    destruct (_ <? 0)%Z; [by split; [apply trim_idem|]|]. cbv zeta. cbn [fst snd].
    split; [apply trim_idem|].
    destruct (nonEmpty (normalizeHinweis _ _)) eqn:En; cbn iota; [|done].
    split; [by apply nonEmpty_spec|]. split; [apply normalizeHinweis_Tidy|].
    split; [apply normalizeHinweis_length | apply normalizeHinweis_no_control].
  - split; [done|]. split.
    { right. apply candidates_symbols. rewrite Hcs.
      apply elem_of_app. right. apply elem_of_cons. by left. }
    unfold splitTitelUndHinweis.
    destruct (getHinweisSeparator cfg) as [separator|]; [|by split; [apply trim_idem|]].
    destruct (_ <? 0)%Z; [by split; [apply trim_idem|]|]. cbv zeta. cbn [fst snd].
    split; [apply trim_idem|].
    destruct (nonEmpty (normalizeHinweis _ _)) eqn:En; cbn iota; [|done].
    split; [by apply nonEmpty_spec|]. split; [apply normalizeHinweis_Tidy|].
    split; [apply normalizeHinweis_length | apply normalizeHinweis_no_control].
Qed.

Lemma felderFrom_other (teile keys : list jsstring) (index : nat)
    (acc : gmap jsstring jsstring) (key : jsstring) :
  (key ∉ keys) -> felderFrom index teile keys acc !! key = acc !! key.
Proof.
  revert index acc; induction keys as [|k keys IH]; intros index acc Hnot; [done|].
  apply not_elem_of_cons in Hnot as [Hk Hnot]. cbn [felderFrom].
  rewrite IH by done. by rewrite lookup_insert_ne.
Qed.

Lemma felderFrom_lookup (teile keys : list jsstring) (index j : nat)
    (acc : gmap jsstring jsstring) (key : jsstring) :
  keys !! j = Some key -> (key ∉ drop (S j) keys) ->
  felderFrom index teile keys acc !! key = Some (default [] (teile !! (index + j)%nat)).
Proof.
  revert index j acc; induction keys as [|k keys IH]; intros index j acc Hj Hlast; [done|].
  cbn [felderFrom]. destruct j as [|j].
  - injection Hj as ->. cbn [drop] in Hlast. rewrite felderFrom_other by done.
    by rewrite lookup_insert_eq, Nat.add_0_r.
  - rewrite (IH (S index) j) by done. do 3 f_equal. lia.
Qed.

(** X26: the parts of a parsed summary are not empty and trimmed, and the
    field of a configured name holds the part at the last position of the
    name in the configured list, or the empty text when the summary has
    fewer parts.  (The name that sets the prototype of an object is left
    aside.) *)
Theorem parseSummary_fields (summaryRaw : jsstring) :
  let parsed := parseSummary cfg summaryRaw in
  Forall (fun teil => teil <> [] /\ trim teil = teil) (teile parsed)
  /\ (forall j key,
        summaryInhalt cfg !! j = Some key -> (key ∉ drop (S j) (summaryInhalt cfg)) ->
        key <> str "__proto__" ->
        felder parsed !! key = Some (default [] (teile parsed !! j))).
Proof.
  cbv zeta. unfold parseSummary. cbn [teile felder]. split.
  - apply Forall_forall. intros t Hin.
    apply list_elem_of_In, filter_In in Hin as [Hin Hne].
    apply in_map_iff in Hin as (x & <- & _).
    split; [by apply nonEmpty_spec | apply trim_idem].
  - intros j key Hj Hlast _. by rewrite (felderFrom_lookup _ _ 0 j).
Qed.

End Prefix.

Lemma parseStatusPrefix_longest_witness :
  let found := parseStatusPrefix defaultModifier (str ".* Fenster") in
  sp_symbol found ∈ statusSymbolsOf defaultModifier
  /\ startsWith (str ".* Fenster") (sp_symbol found) = true
  /\ (length (str ".*") <= length (sp_symbol found))%nat
  /\ sp_symbol found = toSymbol defaultModifier (sp_status found) (sp_freigegeben found)
  /\ sp_inhalt found = trim (sliceFrom (str ".* Fenster") (length (sp_symbol found))).
Proof.
  apply (proj2 (parseStatusPrefix_longest defaultModifier (str ".* Fenster")) (str ".*")).
  - by_compute.
  - reflexivity.
Defined.

Lemma parseStatusPrefix_toSymbol_witness :
  parseStatusPrefix Sample.checkboxModifier
    (toSymbol Sample.checkboxModifier true false ++ str " Fenster")
  = {| sp_symbol := toSymbol Sample.checkboxModifier true false;
       sp_status := true;
       sp_freigegeben := false;
       sp_inhalt := trim (str " Fenster") |}.
Proof.
  apply parseStatusPrefix_toSymbol. split; [by_compute|].
  intros a b Ha Hb. unfold statusSymbolsOf in Ha, Hb.
  rewrite !elem_of_cons, elem_of_nil in Ha, Hb.
  destruct Ha as [->|[->|[->|[->|[]]]]], Hb as [->|[->|[->|[->|[]]]]];
    vm_compute; congruence.
Defined.

Lemma parseSummary_fields_witness :
  felder (parseSummary Sample.summaryModifier (str "Keller 3 // Fenster")) !! str "Bereich"
  = Some (default []
            (teile (parseSummary Sample.summaryModifier (str "Keller 3 // Fenster")) !! 0%nat)).
Proof.
  apply (proj2 (parseSummary_fields Sample.summaryModifier (str "Keller 3 // Fenster"))
           0%nat (str "Bereich")).
  - reflexivity.
  - by_compute.
  - discriminate.
Defined.

(** ** Reading back what is written *)

Section Reread.
Context `{UnicodeOps}.
















(** What is used of [toUpperCase]: on ASCII text it turns the small letters
    into capitals and leaves the rest. *)
Hypothesis upper_ascii :
  forall s, Forall (fun c => c < 128) s -> toUpperCase s = map asciiUpperUnit s.




End Reread.


(** ** The scan of the task directory *)

Section StringOrder.







End StringOrder.

Section Directory.
Context `{UnicodeOps}.
Variable cfg : TaskModifierConfig.



End Directory.


(** ** Time stamps *)

Section Timestamps.

Lemma pad_two (v : Z) : (0 <= v <= 99)%Z -> twoDigits v = true.
Proof.
  intros Hv.
  assert (Hall : forallb (fun n => twoDigits (Z.of_nat n)) (seq 0 (Z.to_nat 100)) = true)
    by (vm_compute; reflexivity).
  rewrite forallb_forall in Hall. specialize (Hall (Z.to_nat v)).
  rewrite Z2Nat.id in Hall by lia. apply Hall. apply in_seq. lia.
Qed.

Lemma year_four (v : Z) : (1000 <= v <= 9999)%Z -> fourDigits v = true.
Proof.
  intros Hv.
  assert (Hall : forallb (fun n => fourDigits (Z.of_nat n)) (seq (Z.to_nat 1000) (Z.to_nat 9000)) = true)
    by (vm_compute; reflexivity).
  rewrite forallb_forall in Hall. specialize (Hall (Z.to_nat v)).
  rewrite Z2Nat.id in Hall by lia. apply Hall. apply in_seq. lia.
Qed.

Lemma digitGroup_two (a b : N) (r : jsstring) :
  isDigit a = true -> isDigit b = true -> Page.digitGroup 2 (a :: b :: r) = Some ([a; b], r).
Proof. intros Ha Hb. unfold Page.digitGroup. cbn. by rewrite Ha, Hb. Qed.

Lemma digitGroup_four (a b c d : N) (r : jsstring) :
  isDigit a = true -> isDigit b = true -> isDigit c = true -> isDigit d = true ->
  Page.digitGroup 4 (a :: b :: c :: d :: r) = Some ([a; b; c; d], r).
Proof. intros Ha Hb Hc Hd. unfold Page.digitGroup. cbn. by rewrite Ha, Hb, Hc, Hd. Qed.

Ltac two v a b :=
  let E := fresh "E" in
  let Hd := fresh "Hd" in
  pose proof (pad_two v ltac:(lia)) as Hd; unfold twoDigits in Hd;
  destruct (pad v) as [|a [|b [|? ?]]] eqn:E; try discriminate Hd;
  apply andb_prop in Hd as [[? ?]%andb_prop ?%Z.eqb_eq].

(** X23: the time stamp of a calendar date with a year of four digits has 16
    code units, and the page reads from it the UTC fields of the date. *)
Theorem timestamp_read_back (date : UtcDate) :
  calendarDate date ->
  length (toUtcTimestamp date) = 16%nat
  /\ Page.parseIcsUtcDateTime (Some (toUtcTimestamp date)) = Page.UtcOf date.
Proof.
  destruct date as [year month day hours minutes seconds].
  unfold calendarDate. cbn [utcFullYear utcMonth utcDate utcHours utcMinutes utcSeconds].
  intros (Hy & Hm & Hd & Hh & Hmi & Hs).
  unfold toUtcTimestamp. cbn [utcFullYear utcMonth utcDate utcHours utcMinutes utcSeconds].
  pose proof (year_four year Hy) as Hyear. unfold fourDigits in Hyear.
  destruct (numberToString year) as [|y1 [|y2 [|y3 [|y4 [|? ?]]]]] eqn:Ey; try discriminate Hyear.
  apply andb_prop in Hyear as [[[[Hy1 Hy2]%andb_prop Hy3]%andb_prop Hy4]%andb_prop Hyv%Z.eqb_eq].
  two (month + 1)%Z m1 m2. two day d1 d2. two hours h1 h2. two minutes mi1 mi2.
  two seconds s1 s2.
  change (str "T") with [84]. change (str "Z") with [90].
  split; [reflexivity|].
  unfold Page.parseIcsUtcDateTime. cbn [app].
  unfold Page.matchIcsUtcDateTime.
  rewrite digitGroup_four by done. cbv beta iota delta [mbind option_bind].
  rewrite digitGroup_two by done. cbv beta iota delta [mbind option_bind].
  rewrite digitGroup_two by done. cbv beta iota delta [mbind option_bind Page.letter].
  change (84 =? 84) with true. cbv beta iota.
  rewrite digitGroup_two by done. cbv beta iota delta [mbind option_bind].
  rewrite digitGroup_two by done. cbv beta iota delta [mbind option_bind].
  rewrite digitGroup_two by done. cbv beta iota delta [mbind option_bind].
  change (streq [90] [] || streq [90] [90]) with true. cbv beta iota.
  do 2 f_equal; (done || lia).
Qed.

End Timestamps.

Lemma timestamp_read_back_witness :
  length (toUtcTimestamp Sample.now) = 16%nat
  /\ Page.parseIcsUtcDateTime (Some (toUtcTimestamp Sample.now)) = Page.UtcOf Sample.now.
Proof. apply timestamp_read_back. unfold calendarDate. cbn. lia. Defined.

(** ** The update endpoint *)

Section Endpoint.
Import StammDaten Api.
Context `{UnicodeOps}.
Variable cfg : TaskModifierConfig.

(** X24: a uid that the handler accepts is not empty and has no dot, no
    slash, no backslash and no NUL. *)
Theorem isValidUid_units (uid : jsstring) :
  isValidUid uid = true ->
  uid <> [] /\ Forall (fun c => c <> 46 /\ c <> 47 /\ c <> 92 /\ c <> 0) uid.
Proof.
  unfold isValidUid. intros [Hne Hall]%andb_prop. split; [by apply nonEmpty_spec|].
  rewrite forallb_forall in Hall. apply Forall_forall. intros c Hc.
  apply list_elem_of_In in Hc. specialize (Hall c Hc).
  unfold isUidUnit, isDigit in Hall.
  repeat split; intros ->; vm_compute in Hall; discriminate.
Qed.


End Endpoint.

Lemma isValidUid_units_witness :
  str "task-42" <> []
  /\ Forall (fun c => c <> 46 /\ c <> 47 /\ c <> 92 /\ c <> 0) (str "task-42").
Proof. apply isValidUid_units. reflexivity. Defined.


(** ** Unfolding and lenient reading, on sample content *)

Lemma unfold_folded_lines_witness :
  unfoldIcsLines (join CRLF (concat (map physicalLines Sample.folded)))
  = map logicalLine Sample.folded.
Proof.
  apply unfold_folded_lines.
  - by right.
  - discriminate.
  - repeat (constructor || split); try done; by_compute.
  - repeat constructor.
Defined.

Lemma parseIcsProperties_open_ended_witness :
  parseIcsProperties (H := asciiUnicode) Sample.openEnded
  = propertiesOfLines (H := asciiUnicode) (List.filter notBegin [str "SUMMARY:x"]).
Proof.
  apply (@parseIcsProperties_open_ended asciiUnicode Sample.openEnded [] [str "SUMMARY:x"]).
  - vm_compute. reflexivity.
  - by_compute.
  - by_compute.
  - by_compute.
Defined.
